(** * Pixelated title card: a shallow embedding of [script.js]

    The embedding covers the whole script: the fragment shader, the
    canvas texture generator, the constructor and [init], the pointer
    handlers, the animation tick, resizing, teardown, and the DOM helper
    [applyPixelatedTextTo]; then the browser's event loop that drives
    them.  The properties follow the definitions.

    Numbers.  JavaScript numbers and GLSL floats are idealised as real
    numbers ([R]); rounding, infinities and NaN are outside the model.
    Quantities the browser defines as integers ([window.innerWidth],
    [canvas.width], frame request ids) are [Z] or [nat].

    Objects.  The script never lets two fields share a position object:
    the three positions start as separate literals and are only ever
    replaced by spread copies ([{ ...p }]) or updated field by field.
    They are therefore modelled as values. *)

From Stdlib Require Import Reals Lra Lia ZArith List String Ascii.
From stdpp Require Import base option list strings gmap.
Import ListNotations.

(** ** Two-component vectors

    Used both for the JavaScript position objects [{x, y}], for
    [THREE.Vector2] uniform values and for GLSL [vec2]. *)

Record vec2 : Type := Vec2 { x : R; y : R }.

Module GLSL.
#[local] Open Scope R_scope.

(** Componentwise operators of GLSL on [vec2], and the mixed
    scalar/vector products. *)
Definition vadd (a b : vec2) : vec2 := Vec2 (x a + x b) (y a + y b).
Definition vsub (a b : vec2) : vec2 := Vec2 (x a - x b) (y a - y b).
Definition vmul (a b : vec2) : vec2 := Vec2 (x a * x b) (y a * y b).
Definition vdiv (a b : vec2) : vec2 := Vec2 (x a / x b) (y a / y b).
Definition vneg (a : vec2) : vec2 := Vec2 (- x a) (- y a).
Definition smul (s : R) (a : vec2) : vec2 := Vec2 (s * x a) (s * y a).
Definition vscale (a : vec2) (s : R) : vec2 := Vec2 (x a * s) (y a * s).

(** Built-in functions.  [smoothstep] is the reference definition of
    the GLSL specification:
    [t = clamp((x - edge0) / (edge1 - edge0), 0.0, 1.0);
     return t * t * (3.0 - 2.0 * t);]
    and [clamp(x, lo, hi)] is [min(max(x, lo), hi)].  The shader calls it
    with falling edges, [smoothstep(0.3, 0.0, d)], for which the GLSL
    specification does not fix the result; the model takes the reference
    formula there as well. *)
Definition floor (a : R) : R := IZR (Zfloor a).
Definition vfloor (a : vec2) : vec2 := Vec2 (floor (x a)) (floor (y a)).
Definition length (a : vec2) : R := sqrt (x a * x a + y a * y a).
Definition clamp (a lo hi : R) : R := Rmin (Rmax a lo) hi.
Definition smoothstep (edge0 edge1 a : R) : R :=
  let t := clamp ((a - edge0) / (edge1 - edge0)) 0 1 in
  t * t * (3 - 2 * t).
End GLSL.

(** ** The fragment shader (script.js, lines 177-212)

    [u_texture] is the bound texture as [texture2D] sees it: a function
    from texture coordinates to a colour. *)

Module Shader.
Import GLSL.
#[local] Open Scope R_scope.

Section Fragment.
Context {color : Type}.
Variable u_texture : vec2 -> color.
Variables u_mouse u_prevMouse : vec2.

Definition gridUV (vUv : vec2) : vec2 :=
  vdiv (vfloor (vmul vUv (Vec2 40 40))) (Vec2 40 40).

Definition centerOfPixel (vUv : vec2) : vec2 :=
  vadd (gridUV vUv) (Vec2 (1 / 40) (1 / 40)).

Definition mouseDirection : vec2 := vsub u_mouse u_prevMouse.

Definition pixelToMouseDirection (vUv : vec2) : vec2 :=
  vsub (centerOfPixel vUv) u_mouse.

Definition pixelDistanceToMouse (vUv : vec2) : R :=
  length (pixelToMouseDirection vUv).

Definition strength (vUv : vec2) : R :=
  smoothstep 0.3 0 (pixelDistanceToMouse vUv).

(** [strength * -mouseDirection * 0.4] parses as
    [(strength * (-mouseDirection)) * 0.4]. *)
Definition uvOffset (vUv : vec2) : vec2 :=
  vscale (smul (strength vUv) (vneg mouseDirection)) 0.4.

Definition fragmentShader (vUv : vec2) : color :=
  let uv := vsub vUv (uvOffset vUv) in
  u_texture uv.
End Fragment.
End Shader.

(** ** The browser as seen by the effect *)

Module DOM.
Definition node := nat.

(** What the script reads and writes of an element: its class list,
    its inline style, its children and its text.  [sheetPosition] is
    the value of [position] the style sheets give the element, which
    [getComputedStyle] reports when no inline value is set.  The
    cascade is simplified: a style-sheet declaration marked
    [!important], which in the browser beats a plain inline value, is
    not modelled. *)
Record Element : Type := {
  classList : list string;
  style : gmap string string;
  childNodes : list node;
  textContent : string;
  sheetPosition : string
}.

(** [querySelector] is the browser's selector engine on the current
    tree, for strings that are selectors (for any other string the
    browser throws a [SyntaxError], which is not modelled); [nextNode]
    is the identity the next created element gets. *)
Record Document : Type := {
  elements : node -> Element;
  nextNode : node;
  querySelector : string -> option node
}.

Definition blank : Element :=
  {| classList := []; style := ∅; childNodes := [];
     textContent := ""; sheetPosition := "static" |}.

Definition update (d : Document) (n : node) (f : Element -> Element)
  : Document :=
  {| elements := fun m => if decide (m = n) then f (elements d m)
                          else elements d m;
     nextNode := nextNode d;
     querySelector := querySelector d |}.

Definition createElement (d : Document) : Document * node :=
  let n := nextNode d in
  ({| elements := fun m => if decide (m = n) then blank else elements d m;
      nextNode := S n;
      querySelector := querySelector d |}, n).

Definition classList_add (c : string) (e : Element) : Element :=
  {| classList := if decide (c ∈ classList e) then classList e
                  else classList e ++ [c];
     style := style e; childNodes := childNodes e;
     textContent := textContent e; sheetPosition := sheetPosition e |}.

Definition style_set (k v : string) (e : Element) : Element :=
  {| classList := classList e; style := <[k := v]> (style e);
     childNodes := childNodes e; textContent := textContent e;
     sheetPosition := sheetPosition e |}.

Definition set_children (l : list node) (e : Element) : Element :=
  {| classList := classList e; style := style e; childNodes := l;
     textContent := textContent e; sheetPosition := sheetPosition e |}.

(** [getComputedStyle(el).position]. *)
Definition computedPosition (e : Element) : string :=
  default (sheetPosition e) (style e !! "position").

(** [parent.appendChild(child)] for a child that has no parent yet. *)
Definition appendChild (parent child : node) (d : Document) : Document :=
  update d parent (fun e => set_children (childNodes e ++ [child]) e).

(** [parent.removeChild(child)] throws [NotFoundError] ([None]) when
    [child] is not a child of [parent]. *)
Definition removeChild (parent child : node) (d : Document)
  : option Document :=
  if decide (child ∈ childNodes (elements d parent)) then
    Some (update d parent
            (fun e => set_children
                        (filter (fun m => m ≠ child) (childNodes e)) e))
  else None.

Record DOMRect : Type := {
  rect_left : R; rect_top : R; rect_width : R; rect_height : R
}.

Record MouseEvent : Type := { clientX : R; clientY : R }.

(** [String.prototype.trim] on byte strings: strips leading and
    trailing space, tab, line feed, vertical tab, form feed and
    carriage return.  The Unicode white space the browser also strips
    (U+00A0, U+FEFF and the like) has no byte of its own here. *)
Definition is_space (c : ascii) : bool :=
  let n := nat_of_ascii c in
  (n =? 32)%nat || ((9 <=? n)%nat && (n <=? 13)%nat).

Fixpoint trimStart (l : list ascii) : list ascii :=
  match l with
  | c :: l' => if is_space c then trimStart l' else l
  | [] => []
  end.

Definition trim (s : string) : string :=
  string_of_list_ascii
    (rev (trimStart (rev (trimStart (list_ascii_of_string s))))).
End DOM.

Export DOM.

(** ** Canvas 2D drawing and the text texture *)

Module Canvas.
(** [ctx.font = `${fontWeight} ${fontSize}px "${font}"`], with the
    alignment the script sets next to it. *)
Record TextStyle : Type := {
  ts_weight : string; ts_px : Z; ts_family : string;
  ts_align : string; ts_baseline : string
}.

(** The six arguments of [ctx.setTransform(a, b, c, d, e, f)]. *)
Record Transform : Type := {
  tr_a : R; tr_b : R; tr_c : R; tr_d : R; tr_e : R; tr_f : R
}.

Definition identity : Transform :=
  {| tr_a := 1; tr_b := 0; tr_c := 0; tr_d := 1; tr_e := 0; tr_f := 0 |}.

(** A drawing call together with the context state it is drawn in. *)
Inductive DrawCall : Type :=
| fillRect (fillStyle : string) (t : Transform) (x0 y0 w h : R)
| strokeText (strokeStyle : string) (lineWidth : R) (ts : TextStyle)
             (t : Transform) (s : string) (x0 y0 : R)
| fillText (fillStyle : string) (ts : TextStyle) (t : Transform)
           (s : string) (x0 y0 : R).

(** The bitmap behind a [THREE.CanvasTexture]: the canvas size and
    what was drawn on it, in order. *)
Record Texture : Type := {
  canvas_width : Z;
  canvas_height : Z;
  drawn : list DrawCall
}.

Definition transformOf (c : DrawCall) : Transform :=
  match c with
  | fillRect _ t _ _ _ _ => t
  | strokeText _ _ _ t _ _ _ => t
  | fillText _ _ t _ _ _ => t
  end.

Definition isText (c : DrawCall) : bool :=
  match c with
  | fillRect _ _ _ _ _ _ => false
  | _ => true
  end.
End Canvas.

Export Canvas.

(** ** Three.js objects and the host *)

Module Three.
#[local] Open Scope R_scope.

(** [projection] holds the bounds (left, right, top, bottom) baked
    into the projection matrix by the last
    [updateProjectionMatrix()]. *)
Record Camera : Type := {
  cam_left : R; cam_right : R; cam_top : R; cam_bottom : R;
  cam_near : R; cam_far : R; cam_z : R;
  projection : R * R * R * R
}.

Record Uniforms : Type := {
  u_mouse : vec2; u_prevMouse : vec2; u_texture : Texture
}.

Record Renderer : Type := {
  domElement : node;
  renderer_size : Z * Z;
  pixelRatio : R;
  clearColor : Z * R;
  disposed : bool
}.

(** Calls into the host that leave a trace: what was drawn, which
    textures were made, what was logged. *)
Inductive Call : Type :=
| ConsoleWarn (msg : string)
| NewCanvasTexture (t : Texture)
| UpdateProjectionMatrix (l r t b : R)
| Render (u : Uniforms) (c : Camera)
| Dispose.

Inductive EventTarget : Type := ElementTarget (n : node) | Window.
Inductive EventType : Type := mousemove | mouseenter | mouseleave | resize.

(** The four methods the constructor binds to the instance. *)
Inductive Handler : Type :=
| HandleMouseMove | HandleMouseEnter | HandleMouseLeave | OnWindowResize.

Definition Listener : Type := EventTarget * EventType * Handler.

#[global] Instance EventTarget_eq_dec : EqDecision EventTarget.
Proof. solve_decision. Defined.
#[global] Instance EventType_eq_dec : EqDecision EventType.
Proof. solve_decision. Defined.
#[global] Instance Handler_eq_dec : EqDecision Handler.
Proof. solve_decision. Defined.

(** The browser state the script touches.  [listeners] and
    [frameRequests] hold the registrations made through
    [addEventListener] and [requestAnimationFrame]; [calls] is the
    trace, oldest first. *)
Record Host : Type := {
  innerWidth : Z;
  innerHeight : Z;
  devicePixelRatio : R;
  measureText : TextStyle -> string -> R;
  getBoundingClientRect : node -> DOMRect;
  document : Document;
  listeners : list Listener;
  frameRequests : list nat;
  nextFrameRequest : nat;
  calls : list Call
}.

Definition set_document (d : Document) (w : Host) : Host :=
  {| innerWidth := innerWidth w; innerHeight := innerHeight w;
     devicePixelRatio := devicePixelRatio w; measureText := measureText w;
     getBoundingClientRect := getBoundingClientRect w;
     document := d; listeners := listeners w;
     frameRequests := frameRequests w;
     nextFrameRequest := nextFrameRequest w; calls := calls w |}.

Definition set_listeners (l : list Listener) (w : Host) : Host :=
  {| innerWidth := innerWidth w; innerHeight := innerHeight w;
     devicePixelRatio := devicePixelRatio w; measureText := measureText w;
     getBoundingClientRect := getBoundingClientRect w;
     document := document w; listeners := l;
     frameRequests := frameRequests w;
     nextFrameRequest := nextFrameRequest w; calls := calls w |}.

Definition set_frameRequests (l : list nat) (next : nat) (w : Host) : Host :=
  {| innerWidth := innerWidth w; innerHeight := innerHeight w;
     devicePixelRatio := devicePixelRatio w; measureText := measureText w;
     getBoundingClientRect := getBoundingClientRect w;
     document := document w; listeners := listeners w;
     frameRequests := l; nextFrameRequest := next; calls := calls w |}.

Definition set_viewport (width height : Z) (w : Host) : Host :=
  {| innerWidth := width; innerHeight := height;
     devicePixelRatio := devicePixelRatio w; measureText := measureText w;
     getBoundingClientRect := getBoundingClientRect w;
     document := document w; listeners := listeners w;
     frameRequests := frameRequests w;
     nextFrameRequest := nextFrameRequest w; calls := calls w |}.

Definition log (c : Call) (w : Host) : Host :=
  {| innerWidth := innerWidth w; innerHeight := innerHeight w;
     devicePixelRatio := devicePixelRatio w; measureText := measureText w;
     getBoundingClientRect := getBoundingClientRect w;
     document := document w; listeners := listeners w;
     frameRequests := frameRequests w;
     nextFrameRequest := nextFrameRequest w; calls := calls w ++ [c] |}.

(** [addEventListener] ignores a listener that is already
    registered; [removeEventListener] removes it. *)
Definition addEventListener (l : Listener) (w : Host) : Host :=
  if decide (l ∈ listeners w) then w
  else set_listeners (listeners w ++ [l]) w.

Definition removeEventListener (l : Listener) (w : Host) : Host :=
  set_listeners (filter (fun l' => l' ≠ l) (listeners w)) w.

(** [requestAnimationFrame] queues a callback and returns its id;
    [cancelAnimationFrame] drops the request with that id, and does
    nothing for [undefined] ([None]). *)
Definition requestAnimationFrame (w : Host) : Host * nat :=
  let id := nextFrameRequest w in
  (set_frameRequests (frameRequests w ++ [id]) (S id) w, id).

Definition cancelAnimationFrame (id : option nat) (w : Host) : Host :=
  match id with
  | Some i =>
      set_frameRequests (filter (fun j => j ≠ i) (frameRequests w))
                        (nextFrameRequest w) w
  | None => w
  end.

(** [new THREE.OrthographicCamera(...)] computes its projection
    matrix once. *)
Definition OrthographicCamera (l r t b n f : R) : Camera :=
  {| cam_left := l; cam_right := r; cam_top := t; cam_bottom := b;
     cam_near := n; cam_far := f; cam_z := 0;
     projection := (l, r, t, b) |}.

Definition set_position_z (z : R) (c : Camera) : Camera :=
  {| cam_left := cam_left c; cam_right := cam_right c;
     cam_top := cam_top c; cam_bottom := cam_bottom c;
     cam_near := cam_near c; cam_far := cam_far c; cam_z := z;
     projection := projection c |}.

Definition set_bounds (l r t b : R) (c : Camera) : Camera :=
  {| cam_left := l; cam_right := r; cam_top := t; cam_bottom := b;
     cam_near := cam_near c; cam_far := cam_far c; cam_z := cam_z c;
     projection := projection c |}.

Definition updateProjectionMatrix (s : Host * Camera) : Host * Camera :=
  let (w, c) := s in
  (log (UpdateProjectionMatrix (cam_left c) (cam_right c)
                               (cam_top c) (cam_bottom c)) w,
   {| cam_left := cam_left c; cam_right := cam_right c;
      cam_top := cam_top c; cam_bottom := cam_bottom c;
      cam_near := cam_near c; cam_far := cam_far c; cam_z := cam_z c;
      projection :=
        (cam_left c, cam_right c, cam_top c, cam_bottom c) |}).

(** [new THREE.WebGLRenderer(...)] creates its own canvas element. *)
Definition WebGLRenderer (w : Host) : Host * Renderer :=
  let (d, n) := createElement (document w) in
  (set_document d w,
   {| domElement := n; renderer_size := (0, 0)%Z; pixelRatio := 1;
      clearColor := (0%Z, 0); disposed := false |}).

Definition setClearColor (c : Z) (alpha : R) (r : Renderer) : Renderer :=
  {| domElement := domElement r; renderer_size := renderer_size r;
     pixelRatio := pixelRatio r; clearColor := (c, alpha);
     disposed := disposed r |}.

Definition setSize (width height : Z) (r : Renderer) : Renderer :=
  {| domElement := domElement r; renderer_size := (width, height);
     pixelRatio := pixelRatio r; clearColor := clearColor r;
     disposed := disposed r |}.

Definition setPixelRatio (p : R) (r : Renderer) : Renderer :=
  {| domElement := domElement r; renderer_size := renderer_size r;
     pixelRatio := p; clearColor := clearColor r; disposed := disposed r |}.

Definition dispose (s : Host * Renderer) : Host * Renderer :=
  let (w, r) := s in
  (log Dispose w,
   {| domElement := domElement r; renderer_size := renderer_size r;
      pixelRatio := pixelRatio r; clearColor := clearColor r;
      disposed := true |}).
End Three.

Export Three.

(** ** The class [PixelatedTextEffect] *)

Module Effect.
#[local] Open Scope R_scope.

(** The instance fields.  [animationFrame] is [undefined] ([None])
    until the first [animate()]. *)
Record Effect : Type := {
  container : node;
  text : string;
  font : string;
  color : string;
  fontWeight : string;
  easeFactor : R;
  mousePosition : vec2;
  targetMousePosition : vec2;
  prevPosition : vec2;
  camera : Camera;
  shaderUniforms : Uniforms;
  renderer : Renderer;
  animationFrame : option nat
}.

Definition with_easeFactor (v : R) (this : Effect) : Effect :=
  {| container := container this; text := text this; font := font this;
     color := color this; fontWeight := fontWeight this; easeFactor := v;
     mousePosition := mousePosition this;
     targetMousePosition := targetMousePosition this;
     prevPosition := prevPosition this; camera := camera this;
     shaderUniforms := shaderUniforms this; renderer := renderer this;
     animationFrame := animationFrame this |}.

Definition with_mousePosition (v : vec2) (this : Effect) : Effect :=
  {| container := container this; text := text this; font := font this;
     color := color this; fontWeight := fontWeight this;
     easeFactor := easeFactor this; mousePosition := v;
     targetMousePosition := targetMousePosition this;
     prevPosition := prevPosition this; camera := camera this;
     shaderUniforms := shaderUniforms this; renderer := renderer this;
     animationFrame := animationFrame this |}.

Definition with_targetMousePosition (v : vec2) (this : Effect) : Effect :=
  {| container := container this; text := text this; font := font this;
     color := color this; fontWeight := fontWeight this;
     easeFactor := easeFactor this; mousePosition := mousePosition this;
     targetMousePosition := v; prevPosition := prevPosition this;
     camera := camera this; shaderUniforms := shaderUniforms this;
     renderer := renderer this; animationFrame := animationFrame this |}.

Definition with_prevPosition (v : vec2) (this : Effect) : Effect :=
  {| container := container this; text := text this; font := font this;
     color := color this; fontWeight := fontWeight this;
     easeFactor := easeFactor this; mousePosition := mousePosition this;
     targetMousePosition := targetMousePosition this; prevPosition := v;
     camera := camera this; shaderUniforms := shaderUniforms this;
     renderer := renderer this; animationFrame := animationFrame this |}.

Definition with_camera (v : Camera) (this : Effect) : Effect :=
  {| container := container this; text := text this; font := font this;
     color := color this; fontWeight := fontWeight this;
     easeFactor := easeFactor this; mousePosition := mousePosition this;
     targetMousePosition := targetMousePosition this;
     prevPosition := prevPosition this; camera := v;
     shaderUniforms := shaderUniforms this; renderer := renderer this;
     animationFrame := animationFrame this |}.

Definition with_shaderUniforms (v : Uniforms) (this : Effect) : Effect :=
  {| container := container this; text := text this; font := font this;
     color := color this; fontWeight := fontWeight this;
     easeFactor := easeFactor this; mousePosition := mousePosition this;
     targetMousePosition := targetMousePosition this;
     prevPosition := prevPosition this; camera := camera this;
     shaderUniforms := v; renderer := renderer this;
     animationFrame := animationFrame this |}.

Definition with_renderer (v : Renderer) (this : Effect) : Effect :=
  {| container := container this; text := text this; font := font this;
     color := color this; fontWeight := fontWeight this;
     easeFactor := easeFactor this; mousePosition := mousePosition this;
     targetMousePosition := targetMousePosition this;
     prevPosition := prevPosition this; camera := camera this;
     shaderUniforms := shaderUniforms this; renderer := v;
     animationFrame := animationFrame this |}.

Definition with_animationFrame (v : option nat) (this : Effect) : Effect :=
  {| container := container this; text := text this; font := font this;
     color := color this; fontWeight := fontWeight this;
     easeFactor := easeFactor this; mousePosition := mousePosition this;
     targetMousePosition := targetMousePosition this;
     prevPosition := prevPosition this; camera := camera this;
     shaderUniforms := shaderUniforms this; renderer := renderer this;
     animationFrame := v |}.

(** *** createTextTexture (lines 74-128) *)

Definition canvasWidth (w : Host) : Z := (innerWidth w * 2)%Z.
Definition canvasHeight (w : Host) : Z := (innerHeight w * 2)%Z.

Definition fontSize (w : Host) : Z := Zfloor (IZR (canvasWidth w) * 2).

Definition textStyle (w : Host) (this : Effect) : TextStyle :=
  {| ts_weight := fontWeight this; ts_px := fontSize w;
     ts_family := font this;
     ts_align := "center"; ts_baseline := "middle" |}.

Definition textWidth (w : Host) (this : Effect) : R :=
  measureText w (textStyle w this) (text this).

Definition scaleFactor (w : Host) (this : Effect) : R :=
  Rmin 1 ((IZR (canvasWidth w) * 1) / textWidth w this).

Definition aspectCorrection (w : Host) : R :=
  IZR (canvasWidth w) / IZR (canvasHeight w).

Definition createTextTexture (w : Host) (this : Effect) : Host * Texture :=
  let (d, canvas) := createElement (document w) in
  let background :=
    if decide (color this = ""%string) then "#ffffff"%string
    else color this in
  let t :=
    {| tr_a := scaleFactor w this; tr_b := 0; tr_c := 0;
       tr_d := scaleFactor w this / aspectCorrection w;
       tr_e := IZR (canvasWidth w) / 2;
       tr_f := IZR (canvasHeight w) / 2 |} in
  let lineWidth := IZR (fontSize w) * 0.005 in
  let stroke :=
    strokeText "#1a1a1a" lineWidth (textStyle w this) t (text this) 0 0 in
  let texture :=
    {| canvas_width := canvasWidth w;
       canvas_height := canvasHeight w;
       drawn :=
         [fillRect background identity 0 0
                   (IZR (canvasWidth w)) (IZR (canvasHeight w))]
         ++ replicate 3 stroke
         ++ [fillText "#1a1a1a" (textStyle w this) t (text this) 0 0] |} in
  (log (NewCanvasTexture texture) (set_document d w), texture).

(** *** animate (lines 328-346) *)

Definition animate (s : Host * Effect) : Host * Effect :=
  let (w, this) := s in
  let (w, id) := requestAnimationFrame w in
  let this := with_animationFrame (Some id) this in
  let this :=
    with_mousePosition
      (Vec2 (x (mousePosition this)
             + (x (targetMousePosition this) - x (mousePosition this))
               * easeFactor this)
            (y (mousePosition this))) this in
  let this :=
    with_mousePosition
      (Vec2 (x (mousePosition this))
            (y (mousePosition this)
             + (y (targetMousePosition this) - y (mousePosition this))
               * easeFactor this)) this in
  let this :=
    with_shaderUniforms
      {| u_mouse :=
           Vec2 (x (mousePosition this)) (1.0 - y (mousePosition this));
         u_prevMouse := u_prevMouse (shaderUniforms this);
         u_texture := u_texture (shaderUniforms this) |} this in
  let this :=
    with_shaderUniforms
      {| u_mouse := u_mouse (shaderUniforms this);
         u_prevMouse :=
           Vec2 (x (prevPosition this)) (1.0 - y (prevPosition this));
         u_texture := u_texture (shaderUniforms this) |} this in
  (log (Render (shaderUniforms this) (camera this)) w, this).

(** *** addEventListeners (lines 251-256) *)

Definition addEventListeners (s : Host * Effect) : Host * Effect :=
  let (w, this) := s in
  let c := ElementTarget (container this) in
  let w := addEventListener (c, mousemove, HandleMouseMove) w in
  let w := addEventListener (c, mouseenter, HandleMouseEnter) w in
  let w := addEventListener (c, mouseleave, HandleMouseLeave) w in
  let w := addEventListener (Window, resize, OnWindowResize) w in
  (w, this).

(** *** init (lines 137-244) *)

Definition init (s : Host * Effect) : Host * Effect :=
  let (w, this) := s in
  let aspectRatio := IZR (innerWidth w) / IZR (innerHeight w) in
  let this :=
    with_camera
      (set_position_z 1
         (OrthographicCamera (-1) 1 (1 / aspectRatio) ((-1) / aspectRatio)
                             0.1 1000)) this in
  let (w, texture) := createTextTexture w this in
  let this :=
    with_shaderUniforms
      {| u_mouse := Vec2 0 0; u_prevMouse := Vec2 0 0;
         u_texture := texture |} this in
  let (w, r) := WebGLRenderer w in
  let r := setClearColor 0xffffff 1 r in
  let r := setSize (innerWidth w) (innerHeight w) r in
  let r := setPixelRatio (devicePixelRatio w) r in
  let this := with_renderer r this in
  let w :=
    set_document
      (appendChild (container this) (domElement (renderer this))
                   (document w)) w in
  addEventListeners (animate (w, this)).

(** *** The constructor (lines 32-57)

    [container] is required; the other options fall back to their
    defaults when absent.  The fields [init] assigns are [undefined]
    until then: the values given here are never read. *)
Record Options : Type := {
  opt_container : node;
  opt_text : option string;
  opt_font : option string;
  opt_color : option string;
  opt_fontWeight : option string
}.

Definition PixelatedTextEffect (o : Options) (w : Host) : Host * Effect :=
  init (w,
    {| container := opt_container o;
       text := default "zayno"%string (opt_text o);
       font := default "Rinter"%string (opt_font o);
       color := default "#ffffff"%string (opt_color o);
       fontWeight := default "100"%string (opt_fontWeight o);
       easeFactor := 0.02;
       mousePosition := Vec2 0.5 0.5;
       targetMousePosition := Vec2 0.5 0.5;
       prevPosition := Vec2 0.5 0.5;
       camera := OrthographicCamera 0 0 0 0 0 0;
       shaderUniforms :=
         {| u_mouse := Vec2 0 0; u_prevMouse := Vec2 0 0;
            u_texture :=
              {| canvas_width := 0; canvas_height := 0; drawn := [] |} |};
       renderer :=
         {| domElement := 0%nat; renderer_size := (0, 0)%Z;
            pixelRatio := 1; clearColor := (0%Z, 0); disposed := false |};
       animationFrame := None |}).

(** *** The pointer handlers (lines 266-300) *)

Definition handleMouseMove (w : Host) (event : MouseEvent) (this : Effect)
  : Effect :=
  let this := with_easeFactor 0.035 this in
  let rect := getBoundingClientRect w (container this) in
  let this := with_prevPosition (targetMousePosition this) this in
  let this :=
    with_targetMousePosition
      (Vec2 ((clientX event - rect_left rect) / rect_width rect)
            (y (targetMousePosition this))) this in
  with_targetMousePosition
    (Vec2 (x (targetMousePosition this))
          ((clientY event - rect_top rect) / rect_height rect)) this.

Definition handleMouseEnter (w : Host) (event : MouseEvent) (this : Effect)
  : Effect :=
  let this := with_easeFactor 0.01 this in
  let rect := getBoundingClientRect w (container this) in
  let x' := (clientX event - rect_left rect) / rect_width rect in
  let y' := (clientY event - rect_top rect) / rect_height rect in
  let this :=
    with_targetMousePosition (Vec2 x' (y (targetMousePosition this))) this in
  let this :=
    with_mousePosition (Vec2 x' (y (mousePosition this))) this in
  let this :=
    with_targetMousePosition (Vec2 (x (targetMousePosition this)) y') this in
  with_mousePosition (Vec2 (x (mousePosition this)) y') this.

Definition handleMouseLeave (this : Effect) : Effect :=
  let this := with_easeFactor 0.01 this in
  with_targetMousePosition (prevPosition this) this.

(** *** onWindowResize (lines 308-318) *)

Definition onWindowResize (s : Host * Effect) : Host * Effect :=
  let (w, this) := s in
  let aspectRatio := IZR (innerWidth w) / IZR (innerHeight w) in
  let cam :=
    set_bounds (-1) 1 (1 / aspectRatio) ((-1) / aspectRatio)
               (camera this) in
  let (w, cam) := updateProjectionMatrix (w, cam) in
  let this := with_camera cam this in
  let this :=
    with_renderer
      (setSize (innerWidth w) (innerHeight w) (renderer this)) this in
  let (w, texture) := createTextTexture w this in
  let this :=
    with_shaderUniforms
      {| u_mouse := u_mouse (shaderUniforms this);
         u_prevMouse := u_prevMouse (shaderUniforms this);
         u_texture := texture |} this in
  (w, this).

(** *** destroy (lines 355-363)

    [None] when [removeChild] throws. *)
Definition destroy (s : Host * Effect) : option (Host * Effect) :=
  let (w, this) := s in
  let w := cancelAnimationFrame (animationFrame this) w in
  let c := ElementTarget (container this) in
  let w := removeEventListener (c, mousemove, HandleMouseMove) w in
  let w := removeEventListener (c, mouseenter, HandleMouseEnter) w in
  let w := removeEventListener (c, mouseleave, HandleMouseLeave) w in
  let w := removeEventListener (Window, resize, OnWindowResize) w in
  match removeChild (container this) (domElement (renderer this))
                    (document w) with
  | Some d =>
      let (w, r) := dispose (set_document d w, renderer this) in
      Some (w, with_renderer r this)
  | None => None
  end.
End Effect.

Export Effect.

(** ** applyPixelatedTextTo (lines 381-418) *)

Module Helper.
(** The [options] argument: any of the constructor's options may be
    present.  Spread last into the constructor's argument, a present
    key replaces the helper's own value for it. *)
Record Overrides : Type := {
  ov_container : option node;
  ov_text : option string;
  ov_font : option string;
  ov_color : option string;
  ov_fontWeight : option string
}.

(** [options = {}]. *)
Definition no_overrides : Overrides :=
  {| ov_container := None; ov_text := None; ov_font := None;
     ov_color := None; ov_fontWeight := None |}.

Definition overlayStyle (e : Element) : Element :=
  style_set "pointerEvents" "none"
    (style_set "zIndex" "1"
       (style_set "inset" "0"
          (style_set "position" "absolute" e))).

Definition applyPixelatedTextTo
    (selector : string) (options : Overrides) (w : Host)
  : Host * option Effect :=
  match querySelector (document w) selector with
  | None =>
      (log (ConsoleWarn ("Element not found for selector: " +:+ selector)) w,
       None)
  | Some el =>
      let text := trim (textContent (elements (document w) el)) in
      let (d, overlay) := createElement (document w) in
      let d := update d overlay (classList_add "pixelated-overlay") in
      let d := update d overlay overlayStyle in
      let d :=
        if decide (computedPosition (elements d el) = "static")
        then update d el (style_set "position" "relative")
        else d in
      let d := appendChild el overlay d in
      let (w, effect) :=
        PixelatedTextEffect
          {| opt_container := default overlay (ov_container options);
             opt_text := Some (default text (ov_text options));
             opt_font := ov_font options;
             opt_color := ov_color options;
             opt_fontWeight := ov_fontWeight options |}
          (set_document d w) in
      (w, Some effect)
  end.
End Helper.

Export Helper.

(** ** The event loop

    What the browser does with the registrations: an event runs the
    handlers registered for its target and type, a display refresh runs
    the frame callbacks that were pending when it began.  Every frame
    request of the script is for the bound [animate]. *)

Module Loop.
Inductive Event : Type :=
| MouseMove (ev : MouseEvent)
| MouseEnter (ev : MouseEvent)
| MouseLeave (ev : MouseEvent)
| Resize (width height : Z)
| AnimationFrame.

(** A handler that does not read its event ignores the argument.  The
    script registers the two handlers that read coordinates for mouse
    events only, so they always get some. *)
Definition invoke (h : Handler) (ev : option MouseEvent)
           (s : Host * Effect) : Host * Effect :=
  let (w, this) := s in
  match h, ev with
  | HandleMouseMove, Some m => (w, handleMouseMove w m this)
  | HandleMouseEnter, Some m => (w, handleMouseEnter w m this)
  | HandleMouseLeave, _ => (w, handleMouseLeave this)
  | OnWindowResize, _ => onWindowResize s
  | _, None => s
  end.

Definition handlersFor (t : EventTarget) (ty : EventType)
           (ls : list Listener) : list Handler :=
  map snd (filter (fun l : Listener => fst l = (t, ty)) ls).

Definition fire (t : EventTarget) (ty : EventType) (ev : option MouseEvent)
           (s : Host * Effect) : Host * Effect :=
  fold_left (fun s h => invoke h ev s)
            (handlersFor t ty (listeners (fst s))) s.

Definition step (s : Host * Effect) (e : Event) : Host * Effect :=
  let c := ElementTarget (container (snd s)) in
  match e with
  | MouseMove m => fire c mousemove (Some m) s
  | MouseEnter m => fire c mouseenter (Some m) s
  | MouseLeave m => fire c mouseleave (Some m) s
  | Resize width height =>
      fire Window resize None (set_viewport width height (fst s), snd s)
  | AnimationFrame =>
      fold_left (fun s _ => animate s) (frameRequests (fst s))
                (set_frameRequests [] (nextFrameRequest (fst s)) (fst s),
                 snd s)
  end.

Definition run (s : Host * Effect) (es : list Event) : Host * Effect :=
  fold_left step es s.

(** The draws issued so far. *)
Definition isRender (c : Call) : bool :=
  match c with Render _ _ => true | _ => false end.

Definition isNewTexture (c : Call) : bool :=
  match c with NewCanvasTexture _ => true | _ => false end.

Definition isProjectionUpdate (c : Call) : bool :=
  match c with UpdateProjectionMatrix _ _ _ _ => true | _ => false end.

Definition count (p : Call -> bool) (w : Host) : nat :=
  List.length (List.filter p (calls w)).

(** The normalised surface coordinate of a mouse event: its position
    relative to the container's bounding box, as a fraction of the
    box. *)
Definition surfaceCoordinate (w : Host) (c : node) (m : MouseEvent) : vec2 :=
  let rect := getBoundingClientRect w c in
  Vec2 ((clientX m - rect_left rect) / rect_width rect)%R
       ((clientY m - rect_top rect) / rect_height rect)%R.

Definition isMove (e : Event) : bool :=
  match e with MouseMove _ => true | _ => false end.

(** The four listeners [addEventListeners] registers. *)
Definition registrations (c : node) : list Listener :=
  [(ElementTarget c, mousemove, HandleMouseMove);
   (ElementTarget c, mouseenter, HandleMouseEnter);
   (ElementTarget c, mouseleave, HandleMouseLeave);
   (Window, resize, OnWindowResize)].

(** A host ready for [new PixelatedTextEffect(o)]: the instance to be
    constructed has nothing registered yet, and its container is a node
    that exists. *)
Definition ready (o : Options) (w : Host) : Prop :=
  listeners w = [] /\ frameRequests w = []
  /\ (opt_container o < nextNode (document w))%nat.

(** An active instance: its four listeners are registered, exactly one
    frame request is pending and [animationFrame] holds its id, and the
    renderer's canvas is a child of the container. *)
Record active (s : Host * Effect) : Prop := {
  active_listeners :
    listeners (fst s) = registrations (container (snd s));
  active_frame :
    exists id, frameRequests (fst s) = [id]
               /\ animationFrame (snd s) = Some id;
  active_container :
    (container (snd s) < nextNode (document (fst s)))%nat;
  active_canvas :
    domElement (renderer (snd s))
    ∈ childNodes (elements (document (fst s)) (container (snd s)))
}.

(** A torn-down instance: nothing of it is registered any more. *)
Definition released (s : Host * Effect) : Prop :=
  listeners (fst s) = [] /\ frameRequests (fst s) = [].
End Loop.

Export Loop.

(** ** A sample page

    A viewport of 800 by 600 and two elements: node 0, matched by the
    selector [h1], and node 1, matched by [#stage].  Every box is 1000
    by 500 at the origin and every text measures 4000 pixels wide. *)

Module Sample.
Definition page : Document :=
  {| elements := fun _ =>
       {| classList := []; style := ∅; childNodes := [];
          textContent := "  Title "; sheetPosition := "static" |};
     nextNode := 2;
     querySelector := fun sel =>
       if decide (sel = "h1"%string) then Some 0%nat
       else if decide (sel = "#stage"%string) then Some 1%nat
       else None |}.

Definition host : Host :=
  {| innerWidth := 800; innerHeight := 600; devicePixelRatio := 1%R;
     measureText := fun _ _ => 4000%R;
     getBoundingClientRect := fun _ =>
       {| rect_left := 0; rect_top := 0;
          rect_width := 1000; rect_height := 500 |};
     document := page; listeners := []; frameRequests := [];
     nextFrameRequest := 0; calls := [] |}.

Definition options : Options :=
  {| opt_container := 0%nat; opt_text := None; opt_font := None;
     opt_color := None; opt_fontWeight := None |}.

Definition mouseAt (px py : R) : MouseEvent :=
  {| clientX := px; clientY := py |}.
End Sample.

(** The options of a call that names its own container, node 1. *)
Module SampleCall.
Definition stage : Overrides :=
  {| ov_container := Some 1%nat; ov_text := None; ov_font := None;
     ov_color := None; ov_fontWeight := None |}.
End SampleCall.

(** ** Vocabulary for the further properties *)

Module Observe.
(** The pixelation cell of a texture coordinate: the pair of integers
    [floor(uv * 40)] the shader quantises it to. *)
Definition cell (uv : vec2) : Z * Z :=
  (Zfloor (x uv * 40), Zfloor (y uv * 40)).

(** [n] display refreshes in a row. *)
Definition frames (n : nat) : list Event := repeat AnimationFrame n.

Definition isFrame (e : Event) : bool :=
  match e with AnimationFrame => true | _ => false end.

(** The pointer is over the box [rect]. *)
Definition inside (rect : DOMRect) (m : MouseEvent) : Prop :=
  (rect_left rect <= clientX m <= rect_left rect + rect_width rect
   /\ rect_top rect <= clientY m <= rect_top rect + rect_height rect)%R.

(** The camera, the renderer and the texture are those of the current
    viewport. *)
Definition matchesViewport (s : Host * Effect) : Prop :=
  let aspectRatio :=
    (IZR (innerWidth (fst s)) / IZR (innerHeight (fst s)))%R in
  let cam := camera (snd s) in
  let texture := u_texture (shaderUniforms (snd s)) in
  renderer_size (renderer (snd s))
  = (innerWidth (fst s), innerHeight (fst s))
  /\ (cam_left cam, cam_right cam, cam_top cam, cam_bottom cam)
     = ((-1)%R, 1%R, (1 / aspectRatio)%R, ((-1) / aspectRatio)%R)
  /\ projection cam
     = (cam_left cam, cam_right cam, cam_top cam, cam_bottom cam)
  /\ canvas_width texture = (2 * innerWidth (fst s))%Z
  /\ canvas_height texture = (2 * innerHeight (fst s))%Z.
(** The values the script ever assigns to [easeFactor]. *)
Definition easeValues (k : R) : Prop :=
  (k = 0.02 \/ k = 0.035 \/ k = 0.01)%R.

(** Events that bring new pointer coordinates: a move or an enter. *)
Definition bringsPointer (e : Event) : bool :=
  match e with MouseMove _ | MouseEnter _ => true | _ => false end.

(** The pointer has not been heard of: the three positions coincide
    and so do the two mouse uniforms. *)
Definition atRest (this : Effect) : Prop :=
  mousePosition this = targetMousePosition this
  /\ mousePosition this = prevPosition this
  /\ u_mouse (shaderUniforms this) = u_prevMouse (shaderUniforms this).

(** The normalised coordinate lies in the unit square. *)
Definition inUnitSquare (p : vec2) : Prop :=
  (0 <= x p <= 1 /\ 0 <= y p <= 1)%R.
End Observe.

Export Observe.

(** An instance on the sample page as the constructor's own assignments
    leave it (lines 39-48), with the fields [init] sets filled in by
    hand. *)
Module SampleInstance.
Definition idle : Effect :=
  {| container := 0%nat; text := "zayno"; font := "Rinter";
     color := "#ffffff"; fontWeight := "100";
     easeFactor := 0.02%R;
     mousePosition := Vec2 0.5 0.5;
     targetMousePosition := Vec2 0.5 0.5;
     prevPosition := Vec2 0.5 0.5;
     camera := OrthographicCamera (-1) 1 (3 / 4) (-3 / 4) 0.1 1000;
     shaderUniforms :=
       {| u_mouse := Vec2 0 0; u_prevMouse := Vec2 0 0;
          u_texture :=
            {| canvas_width := 1600; canvas_height := 1200; drawn := [] |} |};
     renderer :=
       {| domElement := 3%nat; renderer_size := (800, 600)%Z;
          pixelRatio := 1%R; clearColor := (0xffffff%Z, 1%R);
          disposed := false |};
     animationFrame := None |}.
End SampleInstance.

(** * Properties *)

Section ShaderFacts.
Import GLSL Shader.
#[local] Open Scope R_scope.

Lemma clamp_bounds a : 0 <= clamp a 0 1 <= 1.
Proof.
  unfold clamp. split.
  - apply Rmin_glb; [apply Rmax_r | lra].
  - apply Rmin_r.
Qed.

Lemma clamp_mono a b : a <= b -> clamp a 0 1 <= clamp b 0 1.
Proof.
  intros Hab. unfold clamp.
  apply Rle_min_compat_r, Rle_max_compat_r, Hab.
Qed.

Lemma clamp_below a : a <= 0 -> clamp a 0 1 = 0.
Proof.
  intros Ha. unfold clamp.
  rewrite (Rmax_right a 0 Ha). apply Rmin_left. lra.
Qed.

Lemma clamp_above a : 1 <= a -> clamp a 0 1 = 1.
Proof.
  intros Ha. unfold clamp.
  rewrite Rmax_left by lra. apply Rmin_right, Ha.
Qed.

(** The Hermite polynomial [t*t*(3-2t)] is non-decreasing on [0,1]. *)
Lemma hermite_mono s t :
  0 <= s -> s <= t -> t <= 1 ->
  s * s * (3 - 2 * s) <= t * t * (3 - 2 * t).
Proof.
  intros Hs Hst Ht.
  assert (Htt : t * t <= t) by nra.
  assert (Hss : s * s <= s) by nra.
  assert (Hts : t * s <= s) by nra.
  assert (Hfac : 0 <= 3 * (t + s) - 2 * (t * t + t * s + s * s)) by lra.
  replace (t * t * (3 - 2 * t)) with
    (s * s * (3 - 2 * s)
     + (t - s) * (3 * (t + s) - 2 * (t * t + t * s + s * s))) by ring.
  assert (0 <= (t - s) * (3 * (t + s) - 2 * (t * t + t * s + s * s)))
    by (apply Rmult_le_pos; lra).
  lra.
Qed.

(** With the shader's edges the interpolation parameter is
    [1 - d / 0.3], clamped. *)
Lemma smoothstep_falling d :
  smoothstep 0.3 0 d =
    let t := clamp (1 - d / 0.3) 0 1 in t * t * (3 - 2 * t).
Proof.
  unfold smoothstep. cbv zeta.
  replace ((d - 0.3) / (0 - 0.3)) with (1 - d / 0.3) by (field; lra).
  reflexivity.
Qed.
End ShaderFacts.

Section ShaderTheorems.
Import GLSL Shader.
#[local] Open Scope R_scope.
Context {color : Type}.
Variable texture2D : vec2 -> color.

(** C1.  For every input coordinate [uv] (in particular every one in
    the unit square) and every pair of mouse uniforms, the fragment
    shader emits the colour of the texture sampled at [uv - offset],
    where [gridCoord = floor(uv * 40) / 40],
    [center = gridCoord + (1/40, 1/40)],
    [strength = smoothstep(0.3, 0.0, length(center - mouse))] and
    [offset = strength * -(mouse - prevMouse) * 0.4], all taken
    componentwise. *)
Theorem fragment_samples_at_offset (mouse prevMouse uv : vec2) :
  let gridCoord :=
    Vec2 (floor (x uv * 40) / 40) (floor (y uv * 40) / 40) in
  let center := Vec2 (x gridCoord + 1 / 40) (y gridCoord + 1 / 40) in
  let dist :=
    length (Vec2 (x center - x mouse) (y center - y mouse)) in
  let strength := smoothstep 0.3 0.0 dist in
  let offset :=
    Vec2 (strength * - (x mouse - x prevMouse) * 0.4)
         (strength * - (y mouse - y prevMouse) * 0.4) in
  fragmentShader texture2D mouse prevMouse uv
  = texture2D (Vec2 (x uv - x offset) (y uv - y offset)).
Proof.
  cbv zeta. unfold fragmentShader, uvOffset, strength.
  unfold pixelDistanceToMouse, pixelToMouseDirection, centerOfPixel.
  unfold gridUV, mouseDirection, vsub, vadd, vscale, smul, vneg.
  unfold vdiv, vfloor, vmul. cbn [x y].
  replace 0.0 with 0 by lra.
  reflexivity.
Qed.

(** C10.  When the mouse uniform equals the previous-mouse uniform,
    the offset is the zero vector and the emitted colour is the
    texture sampled at the unmodified [uv], for every [uv] and
    however close [uv] is to the pointer. *)
Theorem stationary_pointer_no_distortion (mouse uv : vec2) :
  uvOffset mouse mouse uv = Vec2 0 0
  /\ fragmentShader texture2D mouse mouse uv = texture2D uv.
Proof.
  assert (Hoff : uvOffset mouse mouse uv = Vec2 0 0).
  { unfold uvOffset, mouseDirection, vscale, smul, vneg, vsub.
    cbn [x y]. f_equal; ring. }
  split; [exact Hoff |].
  unfold fragmentShader. rewrite Hoff.
  destruct uv as [ux uy]. unfold vsub. cbn [x y].
  f_equal. f_equal; ring.
Qed.
End ShaderTheorems.

Section StrengthTheorems.
Import GLSL Shader.
#[local] Open Scope R_scope.

Lemma falloff_zero : smoothstep 0.3 0 0 = 1.
Proof.
  rewrite smoothstep_falling. cbv zeta.
  rewrite clamp_above by lra. ring.
Qed.

Lemma falloff_outside d : 0.3 <= d -> smoothstep 0.3 0 d = 0.
Proof.
  intros Hd. rewrite smoothstep_falling. cbv zeta.
  rewrite clamp_below by lra. ring.
Qed.

Lemma falloff_antitone d1 d2 :
  d1 <= d2 -> smoothstep 0.3 0 d2 <= smoothstep 0.3 0 d1.
Proof.
  intros Hd. rewrite !smoothstep_falling. cbv zeta.
  pose proof (clamp_bounds (1 - d2 / 0.3)) as [Hlo _].
  pose proof (clamp_bounds (1 - d1 / 0.3)) as [_ Hhi].
  apply hermite_mono; [exact Hlo | | exact Hhi].
  apply clamp_mono. lra.
Qed.

(** The shader's strength is that function of the distance between the
    block centre and the mouse, and a distance is never negative. *)
Lemma strength_of_distance (mouse uv : vec2) :
  strength mouse uv = smoothstep 0.3 0.0 (pixelDistanceToMouse mouse uv)
  /\ 0 <= pixelDistanceToMouse mouse uv.
Proof.
  split.
  - unfold strength. replace 0.0 with 0 by lra. reflexivity.
  - unfold pixelDistanceToMouse, length. apply sqrt_pos.
Qed.

(** C5.  The distortion strength [smoothstep(0.3, 0.0, dist)] is
    non-increasing in [dist] for all [dist >= 0], takes its maximum
    (which is 1) at [dist = 0], and is exactly 0 for every
    [dist >= 0.3]; the shader's [strength] is this function of the
    distance from the block centre to the mouse. *)
Theorem strength_falls_off_with_distance (d1 d2 : R) :
  0 <= d1 -> d1 <= d2 ->
  smoothstep 0.3 0.0 d2 <= smoothstep 0.3 0.0 d1
  /\ smoothstep 0.3 0.0 d1 <= smoothstep 0.3 0.0 0
  /\ smoothstep 0.3 0.0 0 = 1
  /\ (0.3 <= d1 -> smoothstep 0.3 0.0 d1 = 0)
  /\ (forall mouse uv : vec2,
        strength mouse uv
        = smoothstep 0.3 0.0 (pixelDistanceToMouse mouse uv)
        /\ 0 <= pixelDistanceToMouse mouse uv).
Proof.
  intros H0 H12. split; [| split; [| split; [| split]]].
  - replace 0.0 with 0 by lra. apply falloff_antitone, H12.
  - replace 0.0 with 0 by lra. apply falloff_antitone, H0.
  - replace 0.0 with 0 by lra. apply falloff_zero.
  - replace 0.0 with 0 by lra. apply falloff_outside.
  - exact strength_of_distance.
Qed.

Lemma strength_falls_off_with_distance_witness :
  smoothstep 0.3 0.0 0.5 <= smoothstep 0.3 0.0 0.1
  /\ smoothstep 0.3 0.0 0.5 = 0.
Proof.
  split.
  - apply (strength_falls_off_with_distance 0.1 0.5); lra.
  - apply (strength_falls_off_with_distance 0.5 0.5); lra.
Defined.
End StrengthTheorems.

(** ** The instance and the event loop *)

Section LoopFacts.
#[local] Open Scope R_scope.

Lemma handlers_mousemove c :
  handlersFor (ElementTarget c) mousemove (registrations c)
  = [HandleMouseMove].
Proof.
  unfold handlersFor, registrations.
  rewrite !filter_cons, filter_nil.
  repeat case_decide; simplify_eq/=; done.
Qed.

Lemma handlers_mouseenter c :
  handlersFor (ElementTarget c) mouseenter (registrations c)
  = [HandleMouseEnter].
Proof.
  unfold handlersFor, registrations.
  rewrite !filter_cons, filter_nil.
  repeat case_decide; simplify_eq/=; done.
Qed.

Lemma handlers_mouseleave c :
  handlersFor (ElementTarget c) mouseleave (registrations c)
  = [HandleMouseLeave].
Proof.
  unfold handlersFor, registrations.
  rewrite !filter_cons, filter_nil.
  repeat case_decide; simplify_eq/=; done.
Qed.

Lemma handlers_resize c :
  handlersFor Window resize (registrations c) = [OnWindowResize].
Proof.
  unfold handlersFor, registrations.
  rewrite !filter_cons, filter_nil.
  repeat case_decide; simplify_eq/=; done.
Qed.

(** Non-membership in an explicit list of distinct listeners. *)
Ltac distinct :=
  repeat (apply not_elem_of_cons; split; [congruence |]);
  apply not_elem_of_nil.

Lemma addEventListener_new l ls w :
  listeners w = ls -> l ∉ ls ->
  addEventListener l w = set_listeners (ls ++ [l]) w.
Proof.
  intros <- Hl. unfold addEventListener. by rewrite decide_False.
Qed.

Lemma addEventListeners_fresh w this :
  listeners w = [] ->
  addEventListeners (w, this)
  = (set_listeners (registrations (container this)) w, this).
Proof.
  intros Hl. unfold addEventListeners.
  erewrite (addEventListener_new _ [] w); [| exact Hl | distinct].
  erewrite (addEventListener_new _ [_] (set_listeners _ _));
    [| reflexivity | distinct].
  erewrite (addEventListener_new _ [_; _] (set_listeners _ _));
    [| reflexivity | distinct].
  erewrite (addEventListener_new _ [_; _; _] (set_listeners _ _));
    [| reflexivity | distinct].
  reflexivity.
Qed.

(** *** What the handlers do when the instance is active *)

Lemma step_move s m :
  active s ->
  step s (MouseMove m) = (fst s, handleMouseMove (fst s) m (snd s)).
Proof.
  intros Ha. destruct s as [w this]. unfold step, fire. cbn [fst snd].
  pose proof (active_listeners _ Ha) as Hl. cbn [fst snd] in Hl.
  rewrite Hl.
  rewrite handlers_mousemove. reflexivity.
Qed.

Lemma step_enter s m :
  active s ->
  step s (MouseEnter m) = (fst s, handleMouseEnter (fst s) m (snd s)).
Proof.
  intros Ha. destruct s as [w this]. unfold step, fire. cbn [fst snd].
  pose proof (active_listeners _ Ha) as Hl. cbn [fst snd] in Hl.
  rewrite Hl.
  rewrite handlers_mouseenter. reflexivity.
Qed.

Lemma step_leave s m :
  active s ->
  step s (MouseLeave m) = (fst s, handleMouseLeave (snd s)).
Proof.
  intros Ha. destruct s as [w this]. unfold step, fire. cbn [fst snd].
  pose proof (active_listeners _ Ha) as Hl. cbn [fst snd] in Hl.
  rewrite Hl.
  rewrite handlers_mouseleave. reflexivity.
Qed.

Lemma step_resize s width height :
  active s ->
  step s (Resize width height)
  = onWindowResize (set_viewport width height (fst s), snd s).
Proof.
  intros Ha. destruct s as [w this]. unfold step, fire. cbn [fst snd].
  replace (listeners (set_viewport width height w)) with (listeners w)
    by reflexivity.
  pose proof (active_listeners _ Ha) as Hl. cbn [fst snd] in Hl.
  rewrite Hl.
  rewrite handlers_resize. reflexivity.
Qed.

Lemma step_frame s :
  active s ->
  step s AnimationFrame
  = animate (set_frameRequests [] (nextFrameRequest (fst s)) (fst s), snd s).
Proof.
  intros Ha. destruct s as [w this]. unfold step. cbn [fst snd].
  destruct (active_frame _ Ha) as (id & Hid & _). cbn [fst] in Hid.
  rewrite Hid. reflexivity.
Qed.

(** *** Construction gives an active instance, events keep it active *)

Lemma construct_active o w : ready o w -> active (PixelatedTextEffect o w).
Proof.
  intros (Hl & Hf & Hc).
  unfold PixelatedTextEffect, init.
  destruct w, o; cbn in Hl, Hf, Hc; subst.
  cbn -[addEventListeners].
  rewrite addEventListeners_fresh by reflexivity.
  split; cbn.
  - reflexivity.
  - eexists; split; reflexivity.
  - lia.
  - rewrite decide_True by reflexivity. cbn. set_solver.
Qed.

Lemma active_step s e : active s -> active (step s e).
Proof.
  intros Ha. pose proof Ha as [Hl (id & Hid & Haf) Hc Hcv].
  destruct e as [m | m | m | width height |].
  - rewrite step_move by exact Ha. destruct s as [w this].
    split; cbn in *; eauto.
  - rewrite step_enter by exact Ha. destruct s as [w this].
    split; cbn in *; eauto.
  - rewrite step_leave by exact Ha. destruct s as [w this].
    split; cbn in *; eauto.
  - rewrite step_resize by exact Ha. destruct s as [w this].
    destruct w; cbn in *. split; cbn; eauto.
    rewrite decide_False by lia. exact Hcv.
  - rewrite step_frame by exact Ha. destruct s as [w this].
    destruct w; cbn in *. split; cbn; eauto.
Qed.

Lemma active_run es : forall s, active s -> active (run s es).
Proof.
  induction es as [| e es IH]; intros s Ha; [exact Ha |].
  apply IH, active_step, Ha.
Qed.

Lemma run_app s es1 es2 : run s (es1 ++ es2) = run (run s es1) es2.
Proof. unfold run. apply fold_left_app. Qed.
End LoopFacts.

(** ** The pointer state *)

Section PointerTheorems.
#[local] Open Scope R_scope.

Lemma move_records_previous w m this :
  let this' := handleMouseMove w m this in
  targetMousePosition this' = surfaceCoordinate w (container this) m
  /\ prevPosition this' = targetMousePosition this
  /\ mousePosition this' = mousePosition this
  /\ easeFactor this' = 0.035.
Proof. repeat split. Qed.

Lemma leave_restores_previous this :
  let this' := handleMouseLeave this in
  targetMousePosition this' = prevPosition this
  /\ prevPosition this' = prevPosition this
  /\ easeFactor this' = 0.01.
Proof. repeat split. Qed.

(** Only a move event writes [prevPosition]. *)
Lemma previous_kept_by_step s e :
  active s -> isMove e = false ->
  prevPosition (snd (step s e)) = prevPosition (snd s).
Proof.
  intros Ha He. destruct e as [m | m | m | width height |];
    try discriminate He.
  - rewrite step_enter by exact Ha. reflexivity.
  - rewrite step_leave by exact Ha. reflexivity.
  - rewrite step_resize by exact Ha. destruct s as [w this]. reflexivity.
  - rewrite step_frame by exact Ha. destruct s as [w this]. reflexivity.
Qed.

Lemma previous_kept_by_run es :
  forall s, active s -> forallb (fun e => negb (isMove e)) es = true ->
  prevPosition (snd (run s es)) = prevPosition (snd s).
Proof.
  induction es as [| e es IH]; intros s Ha Hes; [reflexivity |].
  cbn in Hes. apply andb_prop in Hes as [He Hes].
  apply negb_true_iff in He.
  cbn. change (fold_left step es (step s e)) with (run (step s e) es).
  rewrite IH by (try apply active_step; assumption).
  apply previous_kept_by_step; assumption.
Qed.

(** The parts of the host and of the instance that [init] leaves as the
    constructor found them. *)
Lemma construct_fresh o w :
  ready o w ->
  let s := PixelatedTextEffect o w in
  container (snd s) = opt_container o
  /\ getBoundingClientRect (fst s) = getBoundingClientRect w
  /\ targetMousePosition (snd s) = Vec2 0.5 0.5
  /\ prevPosition (snd s) = Vec2 0.5 0.5.
Proof.
  intros (Hl & Hf & Hc).
  unfold PixelatedTextEffect, init.
  destruct w, o; cbn in Hl, Hf, Hc; subst.
  cbn -[addEventListeners].
  rewrite addEventListeners_fresh by reflexivity.
  repeat split.
Qed.

Lemma scripted_moves_then_leave s0 m1 m2 m3 :
  active s0 ->
  let s := run s0 [MouseMove m1; MouseMove m2; MouseLeave m3] in
  targetMousePosition (snd s)
  = surfaceCoordinate (fst s0) (container (snd s0)) m1
  /\ easeFactor (snd s) = 0.01.
Proof.
  intros Ha0. cbn [run fold_left].
  pose proof (active_step s0 (MouseMove m1) Ha0) as Ha1.
  pose proof (active_step _ (MouseMove m2) Ha1) as Ha2.
  rewrite (step_leave _ m3 Ha2). cbn [snd].
  rewrite (step_move _ m2 Ha1). cbn [snd].
  rewrite (step_move _ m1 Ha0). cbn [fst snd].
  split; reflexivity.
Qed.

Lemma leave_after_last_move s0 es1 es2 m m' :
  active s0 ->
  forallb (fun e => negb (isMove e)) es2 = true ->
  let s1 := run s0 es1 in
  let s2 := step s1 (MouseMove m) in
  let s3 := step (run s2 es2) (MouseLeave m') in
  prevPosition (snd s2) = targetMousePosition (snd s1)
  /\ targetMousePosition (snd s3) = prevPosition (snd s2)
  /\ easeFactor (snd s3) = 0.01.
Proof.
  intros Ha0 Hes s1 s2 s3.
  assert (Ha1 : active s1) by (apply active_run, Ha0).
  assert (Ha2 : active s2) by (apply active_step, Ha1).
  assert (Ha3 : active (run s2 es2)) by (apply active_run, Ha2).
  subst s3. rewrite (step_leave _ m' Ha3). cbn [snd].
  split; [| split; [| reflexivity]].
  - subst s2. rewrite (step_move _ m Ha1). reflexivity.
  - change (prevPosition (snd (run s2 es2)) = prevPosition (snd s2)).
    apply previous_kept_by_run; assumption.
Qed.

(** C2.  From a fresh instance, a move to (0.2, 0.3), a move to
    (0.5, 0.5) and a leave end with the target at (0.2, 0.3).  In
    general a leave sets the target to the previous position recorded
    by the last move event (which is the target that move replaced),
    whatever enter, resize and frame events came in between, and sets
    the smoothing factor to 0.01. *)
Theorem leave_targets_previous (o : Options) (w : Host) :
  ready o w ->
  let s0 := PixelatedTextEffect o w in
  (forall m1 m2 m3 : MouseEvent,
     surfaceCoordinate w (opt_container o) m1 = Vec2 0.2 0.3 ->
     surfaceCoordinate w (opt_container o) m2 = Vec2 0.5 0.5 ->
     let s := run s0 [MouseMove m1; MouseMove m2; MouseLeave m3] in
     targetMousePosition (snd s) = Vec2 0.2 0.3
     /\ easeFactor (snd s) = 0.01)
  /\ (forall (es1 es2 : list Event) (m m' : MouseEvent),
        forallb (fun e => negb (isMove e)) es2 = true ->
        let s1 := run s0 es1 in
        let s2 := step s1 (MouseMove m) in
        let s3 := step (run s2 es2) (MouseLeave m') in
        prevPosition (snd s2) = targetMousePosition (snd s1)
        /\ targetMousePosition (snd s3) = prevPosition (snd s2)
        /\ easeFactor (snd s3) = 0.01).
Proof.
  intros Hready.
  pose proof (construct_active o w Hready) as Ha0.
  destruct (construct_fresh o w Hready) as (Hc & Hrect & _).
  revert Ha0 Hc Hrect. generalize (PixelatedTextEffect o w) as s0.
  intros s0 Ha0 Hc Hrect. cbv zeta. split.
  - intros m1 m2 m3 H1 _.
    destruct (scripted_moves_then_leave s0 m1 m2 m3 Ha0) as [Ht He].
    split; [| exact He].
    rewrite Ht. unfold surfaceCoordinate. rewrite Hrect, Hc. exact H1.
  - intros es1 es2 m m' Hes.
    exact (leave_after_last_move s0 es1 es2 m m' Ha0 Hes).
Qed.

Lemma sample_ready : ready Sample.options Sample.host.
Proof. repeat split. cbn. lia. Qed.

Lemma leave_targets_previous_witness :
  let s :=
    run (PixelatedTextEffect Sample.options Sample.host)
        [MouseMove (Sample.mouseAt 200 150); MouseMove (Sample.mouseAt 500 250);
         MouseLeave (Sample.mouseAt 1200 250)] in
  targetMousePosition (snd s) = Vec2 0.2 0.3 /\ easeFactor (snd s) = 0.01.
Proof.
  apply (proj1 (leave_targets_previous Sample.options Sample.host
                  sample_ready));
    unfold surfaceCoordinate; cbn; f_equal; lra.
Defined.

(** C3.  For every pointer enter event, with [(x, y)] its normalised
    surface coordinate, right after the enter handler both the current
    position and the target position equal [(x, y)], with no easing
    step in between, and the smoothing factor is 0.01. *)
Theorem enter_snaps_current_and_target
        (w : Host) (event : MouseEvent) (this : Effect) :
  let p := surfaceCoordinate w (container this) event in
  let this' := handleMouseEnter w event this in
  mousePosition this' = p
  /\ targetMousePosition this' = p
  /\ easeFactor this' = 0.01.
Proof. repeat split. Qed.

(** C4.  On every animation tick each axis of the current position
    becomes [current + (target - current) * smoothingFactor], the
    shader mouse uniforms are then written as
    [(current.x, 1 - current.y)] and [(previous.x, 1 - previous.y)]
    from the updated current position, and the target, the previous
    position and the smoothing factor are left as they were. *)
Theorem animate_eases_and_writes_uniforms (w : Host) (this : Effect) :
  let this' := snd (animate (w, this)) in
  x (mousePosition this')
  = x (mousePosition this)
    + (x (targetMousePosition this) - x (mousePosition this))
      * easeFactor this
  /\ y (mousePosition this')
     = y (mousePosition this)
       + (y (targetMousePosition this) - y (mousePosition this))
         * easeFactor this
  /\ u_mouse (shaderUniforms this')
     = Vec2 (x (mousePosition this')) (1 - y (mousePosition this'))
  /\ u_prevMouse (shaderUniforms this')
     = Vec2 (x (prevPosition this)) (1 - y (prevPosition this))
  /\ targetMousePosition this' = targetMousePosition this
  /\ prevPosition this' = prevPosition this
  /\ easeFactor this' = easeFactor this.
Proof.
  cbn. replace 1.0 with 1 by lra. repeat split.
Qed.
End PointerTheorems.

(** ** The text texture and resizing *)

Section TextureTheorems.
#[local] Open Scope R_scope.

Lemma texture_size w this :
  canvas_width (snd (createTextTexture w this)) = (2 * innerWidth w)%Z
  /\ canvas_height (snd (createTextTexture w this)) = (2 * innerHeight w)%Z.
Proof. cbn. unfold canvasWidth, canvasHeight. lia. Qed.

(** C6.  For every text whose measured width is positive, the texture
    generator computes
    [scaleFactor = min(1, bitmapWidth / measuredTextWidth)], so
    [scaleFactor <= 1], and draws the text under the transform whose
    horizontal scale is that factor and whose vertical scale is
    [scaleFactor / (bitmapWidth / bitmapHeight)]: the text calls on the
    bitmap are exactly three strokes and one fill of the instance's
    text, all four under this one transform, which puts the origin at
    the middle of the bitmap. *)
Theorem text_never_upscaled (w : Host) (this : Effect) :
  0 < textWidth w this ->
  let texture := snd (createTextTexture w this) in
  let bitmapWidth := IZR (canvas_width texture) in
  let bitmapHeight := IZR (canvas_height texture) in
  let factor := Rmin 1 (bitmapWidth / textWidth w this) in
  let applied :=
    {| tr_a := factor; tr_b := 0; tr_c := 0;
       tr_d := factor / (bitmapWidth / bitmapHeight);
       tr_e := bitmapWidth / 2; tr_f := bitmapHeight / 2 |} in
  let stroke :=
    strokeText "#1a1a1a" (IZR (fontSize w) * 0.005) (textStyle w this)
               applied (text this) 0 0 in
  scaleFactor w this = factor
  /\ scaleFactor w this <= 1
  /\ tr_a applied <= 1
  /\ List.filter isText (drawn texture)
     = [stroke; stroke; stroke;
        fillText "#1a1a1a" (textStyle w this) applied (text this) 0 0]
  /\ Forall (fun c =>
        isText c = true ->
        tr_a (transformOf c) = scaleFactor w this
        /\ tr_d (transformOf c)
           = scaleFactor w this / (bitmapWidth / bitmapHeight))
       (drawn texture).
Proof.
  intros Hpos. cbn -[scaleFactor].
  assert (Hs : scaleFactor w this
               = Rmin 1 (IZR (canvasWidth w) / textWidth w this))
    by (unfold scaleFactor; rewrite Rmult_1_r; reflexivity).
  split; [exact Hs |].
  split; [unfold scaleFactor; apply Rmin_l |].
  split; [apply Rmin_l |].
  split.
  - rewrite Hs. reflexivity.
  - repeat (apply List.Forall_cons;
            [intros Ht; try discriminate Ht; split; reflexivity |]).
    apply List.Forall_nil.
Qed.

Lemma text_never_upscaled_witness :
  let this := snd (PixelatedTextEffect Sample.options Sample.host) in
  scaleFactor Sample.host this <= 1.
Proof.
  intros this.
  apply (text_never_upscaled Sample.host this).
  change (0 < 4000). lra.
Defined.

Lemma count_app p w l :
  length (List.filter p (calls w ++ l))
  = (length (List.filter p (calls w)) + length (List.filter p l))%nat.
Proof. rewrite List.filter_app, List.length_app. reflexivity. Qed.

Lemma resize_active s width height :
  active s ->
  let s' := step s (Resize width height) in
  let texture := u_texture (shaderUniforms (snd s')) in
  let aspectRatio := IZR width / IZR height in
  calls (fst s')
  = calls (fst s)
    ++ [UpdateProjectionMatrix (-1) 1 (1 / aspectRatio) ((-1) / aspectRatio);
        NewCanvasTexture texture]
  /\ projection (camera (snd s'))
     = (-1, 1, 1 / aspectRatio, (-1) / aspectRatio)
  /\ canvas_width texture = (2 * width)%Z
  /\ canvas_height texture = (2 * height)%Z.
Proof.
  intros Ha. cbv zeta. rewrite step_resize by exact Ha.
  destruct s as [w this]. destruct w. cbn.
  unfold canvasWidth, canvasHeight. cbn.
  rewrite <- app_assoc. repeat split; lia.
Qed.

(** C7.  Every resize event reaching an instance (constructed, then
    driven by any events) makes exactly one new texture and exactly one
    projection update, for the new bounds; and every texture the
    generator makes is [2 * viewportWidth] wide and
    [2 * viewportHeight] high, so that a viewport of 800 by 600 gives a
    bitmap of 1600 by 1200. *)
Theorem resize_regenerates_once
        (o : Options) (w : Host) (es : list Event) (width height : Z) :
  ready o w ->
  let s := run (PixelatedTextEffect o w) es in
  let s' := step s (Resize width height) in
  let texture := u_texture (shaderUniforms (snd s')) in
  let aspectRatio := IZR width / IZR height in
  calls (fst s')
  = calls (fst s)
    ++ [UpdateProjectionMatrix (-1) 1 (1 / aspectRatio) ((-1) / aspectRatio);
        NewCanvasTexture texture]
  /\ count isNewTexture (fst s') = S (count isNewTexture (fst s))
  /\ count isProjectionUpdate (fst s')
     = S (count isProjectionUpdate (fst s))
  /\ projection (camera (snd s'))
     = (-1, 1, 1 / aspectRatio, (-1) / aspectRatio)
  /\ canvas_width texture = (2 * width)%Z
  /\ canvas_height texture = (2 * height)%Z
  /\ (forall w0 this0,
        canvas_width (snd (createTextTexture w0 this0))
        = (2 * innerWidth w0)%Z
        /\ canvas_height (snd (createTextTexture w0 this0))
           = (2 * innerHeight w0)%Z)
  /\ ((width, height) = (800, 600)%Z ->
      (canvas_width texture, canvas_height texture) = (1600, 1200)%Z).
Proof.
  intros Hready.
  pose proof (active_run es _ (construct_active o w Hready)) as Ha.
  revert Ha. generalize (run (PixelatedTextEffect o w) es) as s.
  intros s Ha. cbv zeta.
  destruct (resize_active s width height Ha) as (Hc & Hp & Hw & Hh).
  split; [exact Hc |].
  split; [unfold count; rewrite Hc, count_app; cbn; lia |].
  split; [unfold count; rewrite Hc, count_app; cbn; lia |].
  split; [exact Hp |].
  split; [exact Hw |].
  split; [exact Hh |].
  split; [exact texture_size |].
  intros Heq. rewrite Hw, Hh. injection Heq as -> ->. reflexivity.
Qed.

Lemma resize_regenerates_once_witness :
  let s := run (PixelatedTextEffect Sample.options Sample.host)
               [MouseMove (Sample.mouseAt 200 150); AnimationFrame] in
  let s' := step s (Resize 800 600) in
  count isNewTexture (fst s') = S (count isNewTexture (fst s))
  /\ canvas_width (u_texture (shaderUniforms (snd s'))) = 1600%Z.
Proof.
  pose proof (resize_regenerates_once Sample.options Sample.host
                [MouseMove (Sample.mouseAt 200 150); AnimationFrame] 800 600
                sample_ready) as H.
  cbv zeta in H |- *.
  destruct H as (_ & Hn & _ & _ & Hw & _).
  split; [exact Hn | exact Hw].
Defined.
End TextureTheorems.

(** ** Teardown *)

Section TeardownTheorems.
#[local] Open Scope R_scope.

Lemma unregister_all c :
  filter (fun l => l ≠ (Window, resize, OnWindowResize))
    (filter (fun l => l ≠ (ElementTarget c, mouseleave, HandleMouseLeave))
       (filter (fun l => l ≠ (ElementTarget c, mouseenter, HandleMouseEnter))
          (filter (fun l => l ≠ (ElementTarget c, mousemove, HandleMouseMove))
             (registrations c)))) = [].
Proof.
  unfold registrations.
  repeat (rewrite ?filter_cons, ?filter_nil;
          repeat case_decide; simplify_eq/=; try done).
Qed.

Lemma destroy_active s :
  active s ->
  exists s',
    destroy s = Some s'
    /\ listeners (fst s') = []
    /\ frameRequests (fst s') = []
    /\ (domElement (renderer (snd s))
        ∉ childNodes (elements (document (fst s')) (container (snd s))))
    /\ disposed (renderer (snd s')) = true
    /\ calls (fst s') = calls (fst s) ++ [Dispose].
Proof.
  intros [Hl (id & Hid & Haf) Hc Hcv].
  destruct s as [w this]. destruct w. cbn in Hl, Hid, Haf, Hc, Hcv. subst.
  unfold destroy. rewrite Haf.
  unfold cancelAnimationFrame, removeEventListener. cbn -[filter removeChild].
  rewrite unregister_all.
  unfold removeChild. cbn -[filter]. rewrite decide_True by exact Hcv.
  eexists. split; [reflexivity |]. cbn -[filter].
  split; [reflexivity |].
  split; [rewrite filter_cons, decide_False, filter_nil; auto |].
  split; [| split; reflexivity].
  rewrite decide_True by reflexivity. cbn -[filter].
  rewrite list_elem_of_filter. intros [Hne _]. apply Hne. reflexivity.
Qed.

(** With nothing registered no handler and no frame callback runs. *)
Lemma released_step s e :
  released s ->
  released (step s e) /\ calls (fst (step s e)) = calls (fst s).
Proof.
  intros [Hl Hf]. destruct s as [w this]. destruct w.
  cbn in Hl, Hf. subst.
  destruct e; cbn; repeat split.
Qed.

Lemma released_run es :
  forall s, released s -> calls (fst (run s es)) = calls (fst s).
Proof.
  induction es as [| e es IH]; intros s Hs; [reflexivity |].
  destruct (released_step s e Hs) as [Hs' Hc].
  cbn. change (fold_left step es (step s e)) with (run (step s e) es).
  rewrite IH by exact Hs'. exact Hc.
Qed.

Lemma frame_draws_once s :
  active s ->
  count isRender (fst (step s AnimationFrame)) = S (count isRender (fst s)).
Proof.
  intros Ha. rewrite step_frame by exact Ha.
  destruct s as [w this]. destruct w. unfold count. cbn.
  rewrite List.filter_app, List.length_app. cbn. lia.
Qed.

(** C8.  An instance that was constructed and then driven by any
    events has one frame callback scheduled, its four listeners
    registered and its canvas attached to the container, and each
    display refresh draws once.  [destroy()] on it returns normally
    and cancels the scheduled frame callback, detaches all four
    listeners, removes the canvas from the container and disposes of
    the renderer; whatever events follow, nothing more is drawn. *)
Theorem destroy_releases_everything
        (o : Options) (w : Host) (es : list Event) :
  ready o w ->
  let s := run (PixelatedTextEffect o w) es in
  let canvas := domElement (renderer (snd s)) in
  let box := container (snd s) in
  (exists id, frameRequests (fst s) = [id]
              /\ animationFrame (snd s) = Some id)
  /\ listeners (fst s) = registrations box
  /\ canvas ∈ childNodes (elements (document (fst s)) box)
  /\ count isRender (fst (step s AnimationFrame))
     = S (count isRender (fst s))
  /\ exists s',
       destroy s = Some s'
       /\ frameRequests (fst s') = []
       /\ listeners (fst s') = []
       /\ (canvas ∉ childNodes (elements (document (fst s')) box))
       /\ disposed (renderer (snd s')) = true
       /\ calls (fst s') = calls (fst s) ++ [Dispose]
       /\ forall es',
            count isRender (fst (run s' es')) = count isRender (fst s').
Proof.
  intros Hready.
  pose proof (active_run es _ (construct_active o w Hready)) as Ha.
  revert Ha. generalize (run (PixelatedTextEffect o w) es) as s.
  intros s Ha. cbv zeta.
  split; [exact (active_frame _ Ha) |].
  split; [exact (active_listeners _ Ha) |].
  split; [exact (active_canvas _ Ha) |].
  split; [exact (frame_draws_once s Ha) |].
  destruct (destroy_active s Ha) as (s' & Hd & Hl & Hf & Hc & Hdis & Hcalls).
  exists s'. repeat (split; [assumption |]).
  intros es'. unfold count.
  rewrite (released_run es' s') by (split; assumption). reflexivity.
Qed.

Lemma destroy_releases_everything_witness :
  let s := run (PixelatedTextEffect Sample.options Sample.host)
               [MouseEnter (Sample.mouseAt 400 300); AnimationFrame;
                Resize 1024 768; AnimationFrame] in
  exists s', destroy s = Some s'
             /\ frameRequests (fst s') = [] /\ listeners (fst s') = [].
Proof.
  pose proof (destroy_releases_everything Sample.options Sample.host
                [MouseEnter (Sample.mouseAt 400 300); AnimationFrame;
                 Resize 1024 768; AnimationFrame] sample_ready) as H.
  cbv zeta in H |- *.
  destruct H as (_ & _ & _ & _ & s' & Hd & Hf & Hl & _).
  exists s'. repeat split; assumption.
Defined.
End TeardownTheorems.

(** ** The DOM helper *)

Section HelperTheorems.
#[local] Open Scope R_scope.

Lemma addEventListener_document l w :
  document (addEventListener l w) = document w.
Proof. unfold addEventListener. case_decide; reflexivity. Qed.

(** What [init] does to the document, whatever is registered. *)
Lemma construct_parts o w :
  container (snd (PixelatedTextEffect o w)) = opt_container o
  /\ text (snd (PixelatedTextEffect o w))
     = default "zayno"%string (opt_text o)
  /\ document (fst (PixelatedTextEffect o w))
     = appendChild (opt_container o) (S (nextNode (document w)))
         (fst (createElement (fst (createElement (document w)))))
  /\ domElement (renderer (snd (PixelatedTextEffect o w)))
     = S (nextNode (document w)).
Proof.
  unfold PixelatedTextEffect, init. destruct w, o.
  cbn -[addEventListeners]. unfold addEventListeners.
  cbn -[addEventListener]. rewrite !addEventListener_document.
  repeat split.
Qed.

Lemma elements_update d n f m :
  elements (update d n f) m
  = if decide (m = n) then f (elements d m) else elements d m.
Proof. reflexivity. Qed.

Lemma elements_created d m :
  elements (fst (createElement d)) m
  = if decide (m = nextNode d) then blank else elements d m.
Proof. reflexivity. Qed.

Lemma elements_appendChild parent child d m :
  elements (appendChild parent child d) m
  = if decide (m = parent)
    then set_children (childNodes (elements d m) ++ [child]) (elements d m)
    else elements d m.
Proof. reflexivity. Qed.

(** No match: a warning is logged and nothing else changes; no element
    is created, nothing is registered, no instance is returned. *)
Lemma helper_missing sel opts w :
  querySelector (document w) sel = None ->
  applyPixelatedTextTo sel opts w
  = (log (ConsoleWarn ("Element not found for selector: " +:+ sel)) w, None).
Proof. intros Hq. unfold applyPixelatedTextTo. rewrite Hq. reflexivity. Qed.

(** A match: the overlay is a new node, classed and appended to the
    element, and the instance's container is the [container] option
    when the caller gave one, the overlay otherwise. *)
Lemma helper_found sel opts w el :
  querySelector (document w) sel = Some el ->
  (el < nextNode (document w))%nat ->
  let overlay := nextNode (document w) in
  exists w' e,
    applyPixelatedTextTo sel opts w = (w', Some e)
    /\ container e = default overlay (ov_container opts)
    /\ text e
       = default (trim (textContent (elements (document w) el)))
                 (ov_text opts)
    /\ overlay ∈ childNodes (elements (document w') el)
    /\ classList (elements (document w') overlay)
       = ["pixelated-overlay"%string]
    /\ domElement (renderer e) = S (S overlay)
    /\ (ov_container opts = None ->
        childNodes (elements (document w') overlay)
        = [domElement (renderer e)]
        /\ childNodes (elements (document w') el)
           = childNodes (elements (document w) el) ++ [overlay])
    /\ (forall c, ov_container opts = Some c -> c <> overlay ->
        childNodes (elements (document w') overlay) = []).
Proof.
  intros Hq Hel overlay. unfold applyPixelatedTextTo. rewrite Hq.
  change (createElement (document w))
    with (fst (createElement (document w)), overlay).
  cbv iota beta.
  set (d0 := update (update (fst (createElement (document w))) overlay _)
                    overlay _).
  set (d1 := if decide (computedPosition (elements d0 el) = "static"%string)
             then _ else _).
  set (o := Build_Options _ _ _ _ _).
  destruct (construct_parts o (set_document (appendChild el overlay d1) w))
    as (Hc & Ht & Hd & Hr).
  destruct (PixelatedTextEffect o _) as [w' e].
  cbn [fst snd] in Hc, Ht, Hd, Hr.
  assert (Hn1 : nextNode d1 = S overlay)
    by (subst d1; case_decide; reflexivity).
  assert (Hov : elements d1 overlay
                = overlayStyle (classList_add "pixelated-overlay" blank)).
  { subst d1 d0. case_decide; rewrite ?elements_update, ?elements_created;
      fold overlay; repeat case_decide; try lia; try done. }
  assert (Hel1 : childNodes (elements d1 el)
                 = childNodes (elements (document w) el)).
  { subst d1 d0. case_decide; rewrite ?elements_update, ?elements_created;
      fold overlay; repeat case_decide; try lia; try done. }
  change (document (set_document (appendChild el overlay d1) w))
    with (appendChild el overlay d1) in Hd, Hr.
  change (nextNode (appendChild el overlay d1)) with (nextNode d1) in Hd, Hr.
  rewrite Hn1 in Hd, Hr.
  exists w', e. split; [reflexivity |].
  split; [exact Hc |]. split; [exact Ht |].
  rewrite Hd, Hr. clear Hd Hr Ht.
  rewrite !elements_appendChild, !elements_created.
  change (nextNode (appendChild el overlay d1)) with (nextNode d1).
  change (nextNode (fst (createElement (appendChild el overlay d1))))
    with (S (nextNode d1)).
  rewrite !elements_appendChild, Hn1.
  subst o. cbn [opt_container]. subst overlay.
  split; [| split; [| split; [reflexivity | split]]].
  - repeat case_decide; try lia; cbn; rewrite ?Hel1;
      rewrite ?elem_of_app, ?list_elem_of_singleton; auto.
  - repeat case_decide; try lia; cbn; rewrite Hov; reflexivity.
  - intros Hnone. rewrite Hnone.
    change (default (nextNode (document w)) None)
      with (nextNode (document w)).
    split; repeat case_decide; try lia; cbn; rewrite ?Hov, ?Hel1;
      reflexivity.
  - intros c Hsome Hne. rewrite Hsome.
    change (default (nextNode (document w)) (Some c)) with c.
    repeat case_decide; try lia; try congruence; cbn; rewrite ?Hov;
      reflexivity.
Qed.

(** The plain call [applyPixelatedTextTo(selector)]: the returned
    instance is bound to the new overlay, which holds the canvas and is
    the last child of the matched element. *)
Lemma helper_default_binds_overlay sel w el :
  querySelector (document w) sel = Some el ->
  (el < nextNode (document w))%nat ->
  let overlay := nextNode (document w) in
  exists w' e,
    applyPixelatedTextTo sel no_overrides w = (w', Some e)
    /\ container e = overlay
    /\ childNodes (elements (document w') overlay)
       = [domElement (renderer e)]
    /\ childNodes (elements (document w') el)
       = childNodes (elements (document w) el) ++ [overlay].
Proof.
  intros Hq Hel overlay.
  destruct (helper_found sel no_overrides w el Hq Hel)
    as (w' & e & Heq & Hc & _ & _ & _ & _ & Hnone & _).
  destruct (Hnone eq_refl) as [Hov Hch].
  exists w', e. repeat split; assumption.
Qed.

(** C9, at a call that passes its own [container].  On the sample page
    [applyPixelatedTextTo("h1", {container: stage})] inserts the
    overlay (node 2) under the matched element (node 0) but returns an
    instance whose container is the stage (node 1): the canvas is
    appended to the stage and the overlay stays empty. *)
Theorem container_option_displaces_overlay :
  exists w' e,
    applyPixelatedTextTo "h1" SampleCall.stage Sample.host = (w', Some e)
    /\ 2%nat ∈ childNodes (elements (document w') 0%nat)
    /\ classList (elements (document w') 2%nat)
       = ["pixelated-overlay"%string]
    /\ container e = 1%nat
    /\ container e <> 2%nat
    /\ childNodes (elements (document w') 2%nat) = [].
Proof.
  destruct (helper_found "h1" SampleCall.stage Sample.host 0%nat)
    as (w' & e & Heq & Hc & _ & Hin & Hcl & _ & _ & Hempty);
    [reflexivity | cbn; lia |].
  exists w', e. cbn in Hc, Hin, Hcl, Hempty.
  split; [exact Heq |]. split; [exact Hin |]. split; [exact Hcl |].
  split; [exact Hc |]. split; [rewrite Hc; lia |].
  apply (Hempty 1%nat); [reflexivity | lia].
Qed.
End HelperTheorems.

(** * Further properties *)

(** ** The shader *)

Section ShaderMore.
Import GLSL Shader.
#[local] Open Scope R_scope.
Context {color : Type}.
Variable texture2D : vec2 -> color.

Lemma smoothstep_unit d : 0 <= smoothstep 0.3 0 d <= 1.
Proof.
  rewrite smoothstep_falling. cbv zeta.
  pose proof (clamp_bounds (1 - d / 0.3)) as [Hlo Hhi].
  set (t := clamp (1 - d / 0.3) 0 1) in *.
  pose proof (hermite_mono 0 t (Rle_refl 0) Hlo Hhi) as H0.
  pose proof (hermite_mono t 1 Hlo Hhi (Rle_refl 1)) as H1.
  lra.
Qed.

Lemma strength_unit mouse uv : 0 <= strength mouse uv <= 1.
Proof. unfold strength. apply smoothstep_unit. Qed.

(** X1.  Two coordinates of one pixelation cell get the same block centre,
    hence the same strength and the same offset: a cell moves as one
    block. *)
Theorem cell_moves_as_one_block (mouse prevMouse uv uv' : vec2) :
  cell uv = cell uv' ->
  centerOfPixel uv = centerOfPixel uv'
  /\ uvOffset mouse prevMouse uv = uvOffset mouse prevMouse uv'
  /\ fragmentShader texture2D mouse prevMouse uv'
     = texture2D (vsub uv' (uvOffset mouse prevMouse uv)).
Proof.
  intros Hcell. unfold cell in Hcell. injection Hcell as Hx Hy.
  assert (Hc : centerOfPixel uv = centerOfPixel uv').
  { unfold centerOfPixel, gridUV, vadd, vdiv, vfloor, vmul, floor.
    cbn [x y]. rewrite Hx, Hy. reflexivity. }
  assert (Ho : uvOffset mouse prevMouse uv = uvOffset mouse prevMouse uv').
  { unfold uvOffset, strength, pixelDistanceToMouse, pixelToMouseDirection.
    rewrite Hc. reflexivity. }
  split; [exact Hc |]. split; [exact Ho |].
  unfold fragmentShader. rewrite Ho. reflexivity.
Qed.

(** X2.  A block whose centre is at least 0.3 away from the mouse is not
    displaced at all, however fast the mouse moves. *)
Theorem no_distortion_beyond_radius (mouse prevMouse uv : vec2) :
  0.3 <= pixelDistanceToMouse mouse uv ->
  uvOffset mouse prevMouse uv = Vec2 0 0
  /\ fragmentShader texture2D mouse prevMouse uv = texture2D uv.
Proof.
  intros Hfar.
  assert (Hs : strength mouse uv = 0)
    by (unfold strength; apply falloff_outside, Hfar).
  assert (Hoff : uvOffset mouse prevMouse uv = Vec2 0 0).
  { unfold uvOffset. rewrite Hs. unfold vscale, smul, vneg.
    cbn [x y]. f_equal; ring. }
  split; [exact Hoff |].
  unfold fragmentShader. rewrite Hoff.
  destruct uv as [ux uy]. unfold vsub. cbn [x y]. f_equal. f_equal; ring.
Qed.

(** X3.  The displacement is at most 0.4 times the mouse movement on each
    axis, and never points along the movement: the sample point
    [uv - offset] is shifted the way the mouse went. *)
Theorem offset_bounded_and_opposed (mouse prevMouse uv : vec2) :
  let offset := uvOffset mouse prevMouse uv in
  Rabs (x offset) <= 0.4 * Rabs (x mouse - x prevMouse)
  /\ Rabs (y offset) <= 0.4 * Rabs (y mouse - y prevMouse)
  /\ x offset * (x mouse - x prevMouse) <= 0
  /\ y offset * (y mouse - y prevMouse) <= 0.
Proof.
  cbv zeta. pose proof (strength_unit mouse uv) as [Hlo Hhi].
  unfold uvOffset, mouseDirection, vscale, smul, vneg, vsub. cbn [x y].
  set (s := strength mouse uv) in *.
  set (dx := x mouse - x prevMouse). set (dy := y mouse - y prevMouse).
  assert (Hx : s * - dx * 0.4 = - (0.4 * s) * dx) by ring.
  assert (Hy : s * - dy * 0.4 = - (0.4 * s) * dy) by ring.
  rewrite Hx, Hy, !Rabs_mult, Rabs_Ropp, (Rabs_pos_eq (0.4 * s)) by nra.
  pose proof (Rabs_pos dx). pose proof (Rabs_pos dy).
  repeat split; nra.
Qed.

(** X4.  The point the shader calls the centre of the block is the block's
    far corner: on each axis the coordinate lies in
    [[gridUV, gridUV + 1/40)] and the "centre" is [gridUV + 1/40],
    strictly beyond it. *)
Theorem block_centre_is_far_corner (uv : vec2) :
  x (gridUV uv) <= x uv < x (centerOfPixel uv)
  /\ y (gridUV uv) <= y uv < y (centerOfPixel uv)
  /\ x (centerOfPixel uv) = x (gridUV uv) + 1 / 40
  /\ y (centerOfPixel uv) = y (gridUV uv) + 1 / 40.
Proof.
  unfold centerOfPixel, gridUV, vadd, vdiv, vfloor, vmul, floor. cbn [x y].
  pose proof (Zfloor_bound (x uv * 40)) as Hx.
  pose proof (Zfloor_bound (y uv * 40)) as Hy.
  repeat split; lra.
Qed.
End ShaderMore.

Section ShaderMoreWitnesses.
Import GLSL Shader.
#[local] Open Scope R_scope.

Lemma cell_moves_as_one_block_witness :
  uvOffset (Vec2 0.5 0.5) (Vec2 0.4 0.5) (Vec2 0.51 0.51)
  = uvOffset (Vec2 0.5 0.5) (Vec2 0.4 0.5) (Vec2 0.52 0.52).
Proof.
  apply (cell_moves_as_one_block (fun uv : vec2 => uv)
           (Vec2 0.5 0.5) (Vec2 0.4 0.5) (Vec2 0.51 0.51) (Vec2 0.52 0.52)).
  unfold cell. cbn [x y].
  rewrite (Zfloor_eq 20 (0.51 * 40)) by lra.
  rewrite (Zfloor_eq 20 (0.52 * 40)) by lra.
  reflexivity.
Defined.

Lemma no_distortion_beyond_radius_witness :
  uvOffset (Vec2 0 0) (Vec2 1 1) (Vec2 0.9 0.9) = Vec2 0 0.
Proof.
  apply (no_distortion_beyond_radius (fun uv : vec2 => uv)
           (Vec2 0 0) (Vec2 1 1) (Vec2 0.9 0.9)).
  unfold pixelDistanceToMouse, pixelToMouseDirection, centerOfPixel, gridUV.
  unfold length, vsub, vadd, vdiv, vfloor, vmul, floor. cbn [x y].
  rewrite (Zfloor_eq 36 (0.9 * 40)) by lra.
  rewrite <- (sqrt_square 0.3) by lra.
  apply sqrt_le_1_alt. lra.
Defined.
End ShaderMoreWitnesses.

(** ** The pointer and the animation loop *)

Section PointerMore.
#[local] Open Scope R_scope.

Lemma run_cons s e es : run s (e :: es) = run (step s e) es.
Proof. reflexivity. Qed.

Lemma frame_eases s :
  active s ->
  let s' := step s AnimationFrame in
  x (mousePosition (snd s')) - x (targetMousePosition (snd s))
  = (1 - easeFactor (snd s))
    * (x (mousePosition (snd s)) - x (targetMousePosition (snd s)))
  /\ y (mousePosition (snd s')) - y (targetMousePosition (snd s))
     = (1 - easeFactor (snd s))
       * (y (mousePosition (snd s)) - y (targetMousePosition (snd s)))
  /\ targetMousePosition (snd s') = targetMousePosition (snd s)
  /\ easeFactor (snd s') = easeFactor (snd s).
Proof.
  intros Ha. cbv zeta. rewrite step_frame by exact Ha.
  destruct s as [w this]. cbn. repeat split; ring.
Qed.

Lemma frames_ease n :
  forall s, active s ->
  let s' := run s (frames n) in
  x (mousePosition (snd s')) - x (targetMousePosition (snd s))
  = (1 - easeFactor (snd s)) ^ n
    * (x (mousePosition (snd s)) - x (targetMousePosition (snd s)))
  /\ y (mousePosition (snd s')) - y (targetMousePosition (snd s))
     = (1 - easeFactor (snd s)) ^ n
       * (y (mousePosition (snd s)) - y (targetMousePosition (snd s)))
  /\ targetMousePosition (snd s') = targetMousePosition (snd s)
  /\ easeFactor (snd s') = easeFactor (snd s).
Proof.
  induction n as [| n IH]; intros s Ha; cbv zeta.
  - cbn. repeat split; ring.
  - change (frames (S n)) with (AnimationFrame :: frames n).
    rewrite run_cons.
    destruct (frame_eases s Ha) as (Hx & Hy & Ht & Hk).
    destruct (IH (step s AnimationFrame) (active_step _ _ Ha))
      as (Hx' & Hy' & Ht' & Hk').
    rewrite Ht, Hk in Hx', Hy'. rewrite Hx in Hx'. rewrite Hy in Hy'.
    split; [rewrite Hx'; cbn [pow]; ring |].
    split; [rewrite Hy'; cbn [pow]; ring |].
    split; [rewrite Ht'; exact Ht | rewrite Hk'; exact Hk].
Qed.

(** X5.  With no other event in between, [n] animation ticks shrink
    the gap between the current position and the target by the factor
    [(1 - easeFactor)^n] on each axis, and leave the target and the
    smoothing factor alone. *)
Theorem easing_is_geometric
        (o : Options) (w : Host) (es : list Event) (n : nat) :
  ready o w ->
  let s := run (PixelatedTextEffect o w) es in
  let s' := run s (frames n) in
  x (mousePosition (snd s')) - x (targetMousePosition (snd s))
  = (1 - easeFactor (snd s)) ^ n
    * (x (mousePosition (snd s)) - x (targetMousePosition (snd s)))
  /\ y (mousePosition (snd s')) - y (targetMousePosition (snd s))
     = (1 - easeFactor (snd s)) ^ n
       * (y (mousePosition (snd s)) - y (targetMousePosition (snd s)))
  /\ targetMousePosition (snd s') = targetMousePosition (snd s)
  /\ easeFactor (snd s') = easeFactor (snd s).
Proof.
  intros Hready.
  pose proof (active_run es _ (construct_active o w Hready)) as Ha.
  revert Ha. generalize (run (PixelatedTextEffect o w) es) as s.
  intros s Ha. exact (frames_ease n s Ha).
Qed.

Lemma easing_is_geometric_witness :
  let s := run (PixelatedTextEffect Sample.options Sample.host)
               [MouseMove (Sample.mouseAt 200 150)] in
  let s' := run s (frames 3) in
  targetMousePosition (snd s') = targetMousePosition (snd s).
Proof.
  pose proof (easing_is_geometric Sample.options Sample.host
                [MouseMove (Sample.mouseAt 200 150)] 3 sample_ready) as H.
  cbv zeta in H |- *. destruct H as (_ & _ & Ht & _). exact Ht.
Defined.

Lemma ease_step s e :
  active s -> easeValues (easeFactor (snd s)) ->
  easeValues (easeFactor (snd (step s e))).
Proof.
  intros Ha Hk. destruct e as [m | m | m | width height |].
  - rewrite step_move by exact Ha. right; left; reflexivity.
  - rewrite step_enter by exact Ha. right; right; reflexivity.
  - rewrite step_leave by exact Ha. right; right; reflexivity.
  - rewrite step_resize by exact Ha. destruct s as [w this]. exact Hk.
  - rewrite step_frame by exact Ha. destruct s as [w this]. exact Hk.
Qed.

Lemma ease_run es :
  forall s, active s -> easeValues (easeFactor (snd s)) ->
  easeValues (easeFactor (snd (run s es))).
Proof.
  induction es as [| e es IH]; intros s Ha Hk; [exact Hk |].
  rewrite run_cons. apply IH; [apply active_step, Ha |].
  apply ease_step; assumption.
Qed.

Lemma construct_ease o w :
  ready o w -> easeFactor (snd (PixelatedTextEffect o w)) = 0.02.
Proof.
  intros (Hl & Hf & Hc).
  unfold PixelatedTextEffect, init.
  destruct w, o; cbn in Hl, Hf, Hc; subst.
  cbn -[addEventListeners].
  rewrite addEventListeners_fresh by reflexivity.
  reflexivity.
Qed.

Lemma between_step a t k :
  0 <= k <= 1 -> Rmin a t <= a + (t - a) * k <= Rmax a t.
Proof.
  intros Hk. destruct (Rle_dec a t) as [Hat | Hat].
  - rewrite Rmin_left, Rmax_right by lra. nra.
  - rewrite Rmin_right, Rmax_left by lra. nra.
Qed.

(** X6.  The smoothing factor of an instance is always one of 0.02,
    0.035 and 0.01, so a tick never overshoots: on each axis the new
    current position lies between the old one and the target. *)
Theorem easing_never_overshoots
        (o : Options) (w : Host) (es : list Event) :
  ready o w ->
  let s := run (PixelatedTextEffect o w) es in
  let s' := step s AnimationFrame in
  easeValues (easeFactor (snd s))
  /\ Rmin (x (mousePosition (snd s))) (x (targetMousePosition (snd s)))
     <= x (mousePosition (snd s'))
     <= Rmax (x (mousePosition (snd s))) (x (targetMousePosition (snd s)))
  /\ Rmin (y (mousePosition (snd s))) (y (targetMousePosition (snd s)))
     <= y (mousePosition (snd s'))
     <= Rmax (y (mousePosition (snd s))) (y (targetMousePosition (snd s))).
Proof.
  intros Hready.
  pose proof (active_run es _ (construct_active o w Hready)) as Ha.
  assert (Hk : easeValues
                 (easeFactor (snd (run (PixelatedTextEffect o w) es)))).
  { apply ease_run; [exact (construct_active o w Hready) |].
    left. exact (construct_ease o w Hready). }
  revert Ha Hk. generalize (run (PixelatedTextEffect o w) es) as s.
  intros s Ha Hk. cbv zeta. split; [exact Hk |].
  assert (Hunit : 0 <= easeFactor (snd s) <= 1)
    by (destruct Hk as [-> | [-> | ->]]; lra).
  rewrite step_frame by exact Ha. destruct s as [w0 this]. cbn.
  split; apply between_step; exact Hunit.
Qed.

Lemma easing_never_overshoots_witness :
  easeValues
    (easeFactor
       (snd (run (PixelatedTextEffect Sample.options Sample.host)
                 [MouseEnter (Sample.mouseAt 400 300); AnimationFrame;
                  MouseMove (Sample.mouseAt 200 150)]))).
Proof.
  exact (proj1 (easing_never_overshoots Sample.options Sample.host
                  [MouseEnter (Sample.mouseAt 400 300); AnimationFrame;
                   MouseMove (Sample.mouseAt 200 150)] sample_ready)).
Defined.

Lemma render_count_step s e :
  active s ->
  count isRender (fst (step s e))
  = (count isRender (fst s) + (if isFrame e then 1 else 0))%nat.
Proof.
  intros Ha. destruct e as [m | m | m | width height |].
  - rewrite step_move by exact Ha. cbn. lia.
  - rewrite step_enter by exact Ha. cbn. lia.
  - rewrite step_leave by exact Ha. cbn. lia.
  - rewrite step_resize by exact Ha. destruct s as [w this]. destruct w.
    unfold count. cbn. rewrite <- app_assoc.
    rewrite List.filter_app. cbn. rewrite List.app_nil_r. lia.
  - rewrite frame_draws_once by exact Ha. cbn. lia.
Qed.

Lemma render_count_run es :
  forall s, active s ->
  count isRender (fst (run s es))
  = (count isRender (fst s) + List.length (List.filter isFrame es))%nat.
Proof.
  induction es as [| e es IH]; intros s Ha; [cbn; lia |].
  rewrite run_cons, IH by (apply active_step, Ha).
  rewrite render_count_step by exact Ha.
  cbn [List.filter]. destruct (isFrame e); cbn [List.length]; lia.
Qed.

(** X7.  The scene is drawn once per display refresh and at no other
    time: over any run of events the number of draws grows by the
    number of animation frames among them; pointer and resize events
    draw nothing. *)
Theorem draws_only_on_frames
        (o : Options) (w : Host) (es es' : list Event) :
  ready o w ->
  let s := run (PixelatedTextEffect o w) es in
  count isRender (fst (run s es'))
  = (count isRender (fst s) + List.length (List.filter isFrame es'))%nat.
Proof.
  intros Hready.
  pose proof (active_run es _ (construct_active o w Hready)) as Ha.
  revert Ha. generalize (run (PixelatedTextEffect o w) es) as s.
  intros s Ha. exact (render_count_run es' s Ha).
Qed.

Lemma draws_only_on_frames_witness :
  let s := run (PixelatedTextEffect Sample.options Sample.host) [] in
  count isRender
    (fst (run s [MouseMove (Sample.mouseAt 200 150); AnimationFrame;
                 Resize 1024 768; AnimationFrame]))
  = (count isRender (fst s) + 2)%nat.
Proof.
  exact (draws_only_on_frames Sample.options Sample.host []
           [MouseMove (Sample.mouseAt 200 150); AnimationFrame;
            Resize 1024 768; AnimationFrame] sample_ready).
Defined.
End PointerMore.

Section PointerEdges.
#[local] Open Scope R_scope.

Lemma fraction_in_unit a l w :
  0 < w -> (0 <= (a - l) / w <= 1 <-> l <= a <= l + w).
Proof.
  intros Hw. split.
  - intros [H0 H1].
    assert (Ha : a - l = (a - l) / w * w) by (field; lra).
    split; nra.
  - intros [H0 H1]. split.
    + apply Rle_mult_inv_pos; lra.
    + apply (Rmult_le_reg_r w); [exact Hw |].
      replace ((a - l) / w * w) with (a - l) by (field; lra). lra.
Qed.

(** X8.  For a box of positive size, the target written by a move (and
    the current position and target written by an enter) lies in the
    unit square exactly when the pointer is over the box: the handlers
    do no clamping. *)
Theorem target_in_unit_square_iff_inside
        (w : Host) (event : MouseEvent) (this : Effect) :
  let rect := getBoundingClientRect w (container this) in
  0 < rect_width rect -> 0 < rect_height rect ->
  (inUnitSquare (targetMousePosition (handleMouseMove w event this))
   <-> inside rect event)
  /\ (inUnitSquare (mousePosition (handleMouseEnter w event this))
      <-> inside rect event).
Proof.
  cbv zeta. intros Hw Hh. unfold inUnitSquare, inside. cbn.
  pose proof (fraction_in_unit (clientX event)
                (rect_left (getBoundingClientRect w (container this)))
                _ Hw) as Hx.
  pose proof (fraction_in_unit (clientY event)
                (rect_top (getBoundingClientRect w (container this)))
                _ Hh) as Hy.
  rewrite Hx, Hy. split; reflexivity.
Qed.

Lemma target_in_unit_square_iff_inside_witness :
  inUnitSquare
    (targetMousePosition
       (handleMouseMove Sample.host (Sample.mouseAt 200 150)
                        SampleInstance.idle))
  /\ ~ inUnitSquare
       (targetMousePosition
          (handleMouseMove Sample.host (Sample.mouseAt 1200 150)
                           SampleInstance.idle)).
Proof.
  split.
  - apply (target_in_unit_square_iff_inside Sample.host
             (Sample.mouseAt 200 150) SampleInstance.idle); cbn; try lra.
    unfold inside. cbn. lra.
  - intros Hin.
    apply (target_in_unit_square_iff_inside Sample.host
             (Sample.mouseAt 1200 150) SampleInstance.idle) in Hin;
      cbn; try lra.
    unfold inside in Hin. cbn in Hin. lra.
Defined.

Lemma settled_frame s :
  active s ->
  mousePosition (snd s) = targetMousePosition (snd s) ->
  mousePosition (snd (step s AnimationFrame)) = mousePosition (snd s)
  /\ targetMousePosition (snd (step s AnimationFrame))
     = targetMousePosition (snd s).
Proof.
  intros Ha Heq. rewrite step_frame by exact Ha.
  destruct s as [w this]. cbn in *. rewrite <- Heq.
  split; [| reflexivity].
  destruct (mousePosition this) as [px py]. cbn. f_equal; ring.
Qed.

Lemma settled_frames n :
  forall s, active s ->
  mousePosition (snd s) = targetMousePosition (snd s) ->
  mousePosition (snd (run s (frames n))) = mousePosition (snd s)
  /\ targetMousePosition (snd (run s (frames n)))
     = targetMousePosition (snd s).
Proof.
  induction n as [| n IH]; intros s Ha Heq; [split; reflexivity |].
  change (frames (S n)) with (AnimationFrame :: frames n).
  rewrite run_cons.
  destruct (settled_frame s Ha Heq) as [Hm Ht].
  destruct (IH (step s AnimationFrame) (active_step _ _ Ha))
    as [Hm' Ht']; [congruence |].
  split; congruence.
Qed.

(** X9.  After a pointer enter the position does not drift: however
    many animation ticks follow, the current position and the target
    both stay at the entry coordinate. *)
Theorem enter_then_frames_stays_put
        (o : Options) (w : Host) (es : list Event)
        (m : MouseEvent) (n : nat) :
  ready o w ->
  let s := run (PixelatedTextEffect o w) es in
  let p := surfaceCoordinate (fst s) (container (snd s)) m in
  let s' := run (step s (MouseEnter m)) (frames n) in
  mousePosition (snd s') = p /\ targetMousePosition (snd s') = p.
Proof.
  intros Hready.
  pose proof (active_run es _ (construct_active o w Hready)) as Ha.
  revert Ha. generalize (run (PixelatedTextEffect o w) es) as s.
  intros s Ha. cbv zeta.
  pose proof (active_step s (MouseEnter m) Ha) as Ha'.
  destruct (settled_frames n (step s (MouseEnter m)) Ha') as [Hm Ht].
  - rewrite step_enter by exact Ha. reflexivity.
  - rewrite Hm, Ht. rewrite step_enter by exact Ha. split; reflexivity.
Qed.

Lemma enter_then_frames_stays_put_witness :
  let s := run (PixelatedTextEffect Sample.options Sample.host)
               [MouseMove (Sample.mouseAt 200 150); AnimationFrame] in
  let s' := run (step s (MouseEnter (Sample.mouseAt 400 300))) (frames 5) in
  mousePosition (snd s') = targetMousePosition (snd s').
Proof.
  pose proof (enter_then_frames_stays_put Sample.options Sample.host
                [MouseMove (Sample.mouseAt 200 150); AnimationFrame]
                (Sample.mouseAt 400 300) 5 sample_ready) as H.
  cbv zeta in H |- *. destruct H as [Hm Ht]. rewrite Hm, Ht. reflexivity.
Defined.

(** X10.  Until the first move event the previous position is the
    centre (0.5, 0.5): a leave that comes before any move sends the
    target to the centre, wherever the pointer entered. *)
Theorem leave_before_any_move_targets_centre
        (o : Options) (w : Host) (es : list Event) (m : MouseEvent) :
  ready o w ->
  forallb (fun e => negb (isMove e)) es = true ->
  let s := step (run (PixelatedTextEffect o w) es) (MouseLeave m) in
  targetMousePosition (snd s) = Vec2 0.5 0.5
  /\ prevPosition (snd s) = Vec2 0.5 0.5.
Proof.
  intros Hready Hes.
  pose proof (construct_active o w Hready) as Ha0.
  destruct (construct_fresh o w Hready) as (_ & _ & _ & Hp).
  pose proof (previous_kept_by_run es _ Ha0 Hes) as Hkept.
  pose proof (active_run es _ Ha0) as Ha.
  rewrite Hp in Hkept. clear Hp Ha0.
  revert Ha Hkept. generalize (run (PixelatedTextEffect o w) es) as s.
  intros s Ha Hkept. cbv zeta.
  rewrite step_leave by exact Ha. cbn. split; exact Hkept.
Qed.

Lemma leave_before_any_move_targets_centre_witness :
  targetMousePosition
    (snd (step (run (PixelatedTextEffect Sample.options Sample.host)
                    [MouseEnter (Sample.mouseAt 900 100); AnimationFrame])
               (MouseLeave (Sample.mouseAt 1200 100))))
  = Vec2 0.5 0.5.
Proof.
  exact (proj1 (leave_before_any_move_targets_centre
                  Sample.options Sample.host
                  [MouseEnter (Sample.mouseAt 900 100); AnimationFrame]
                  (Sample.mouseAt 1200 100) sample_ready eq_refl)).
Defined.
End PointerEdges.

(** ** The texture, the camera and resizing *)

Section ViewportMore.
#[local] Open Scope R_scope.

(** X11.  The text is scaled to fit the canvas width and no further: a
    text no wider than the canvas is drawn at scale 1, a wider one is
    shrunk so that its scaled width is exactly the canvas width; in both
    cases the scaled width is the smaller of the two. *)
Theorem text_fits_canvas_width (w : Host) (this : Effect) :
  0 < textWidth w this ->
  let canvas := IZR (canvasWidth w) in
  scaleFactor w this * textWidth w this = Rmin (textWidth w this) canvas
  /\ scaleFactor w this * textWidth w this <= canvas
  /\ (textWidth w this <= canvas -> scaleFactor w this = 1)
  /\ (canvas <= textWidth w this ->
      scaleFactor w this * textWidth w this = canvas).
Proof.
  intros Hpos. cbv zeta. unfold scaleFactor. rewrite Rmult_1_r.
  set (tw := textWidth w this) in *. set (cw := IZR (canvasWidth w)).
  assert (Hq : cw / tw * tw = cw) by (field; lra).
  destruct (Rle_dec tw cw) as [Hle | Hgt].
  - assert (H1 : 1 <= cw / tw).
    { apply (Rmult_le_reg_r tw); [exact Hpos |]. rewrite Hq. lra. }
    rewrite (Rmin_left 1 (cw / tw)) by exact H1.
    rewrite (Rmin_left tw cw) by exact Hle.
    repeat split; intros; lra.
  - assert (H1 : cw / tw <= 1).
    { apply (Rmult_le_reg_r tw); [exact Hpos |]. rewrite Hq. lra. }
    rewrite (Rmin_right 1 (cw / tw)) by exact H1.
    rewrite (Rmin_right tw cw) by lra.
    repeat split; intros; lra.
Qed.

Lemma text_fits_canvas_width_witness :
  scaleFactor Sample.host SampleInstance.idle
  * textWidth Sample.host SampleInstance.idle
  <= IZR (canvasWidth Sample.host).
Proof.
  apply (text_fits_canvas_width Sample.host SampleInstance.idle).
  change (0 < 4000). lra.
Defined.

Lemma construct_matches o w :
  ready o w -> matchesViewport (PixelatedTextEffect o w).
Proof.
  intros (Hl & Hf & Hc).
  unfold PixelatedTextEffect, init.
  destruct w, o; cbn in Hl, Hf, Hc; subst.
  cbn -[addEventListeners].
  rewrite addEventListeners_fresh by reflexivity.
  unfold matchesViewport. cbn. unfold canvasWidth, canvasHeight. cbn.
  repeat split; lia.
Qed.

Lemma matches_step s e :
  active s -> matchesViewport s -> matchesViewport (step s e).
Proof.
  intros Ha Hm. destruct e as [m | m | m | width height |].
  - rewrite step_move by exact Ha. destruct s as [w this]. exact Hm.
  - rewrite step_enter by exact Ha. destruct s as [w this]. exact Hm.
  - rewrite step_leave by exact Ha. destruct s as [w this]. exact Hm.
  - rewrite step_resize by exact Ha. destruct s as [w this]. destruct w.
    unfold matchesViewport. cbn. unfold canvasWidth, canvasHeight. cbn.
    repeat split; lia.
  - rewrite step_frame by exact Ha. destruct s as [w this]. destruct w.
    exact Hm.
Qed.

Lemma matches_run es :
  forall s, active s -> matchesViewport s -> matchesViewport (run s es).
Proof.
  induction es as [| e es IH]; intros s Ha Hm; [exact Hm |].
  rewrite run_cons. apply IH; [apply active_step, Ha |].
  apply matches_step; assumption.
Qed.

(** X12.  The instance always fits the current viewport: after
    construction and after any events, the renderer has the viewport's
    size, the camera's bounds are [(-1, 1, 1/a, -1/a)] for the
    viewport's aspect ratio [a] and are the ones in its projection
    matrix, and the texture is twice the viewport in each dimension. *)
Theorem instance_always_matches_viewport
        (o : Options) (w : Host) (es : list Event) :
  ready o w ->
  matchesViewport (run (PixelatedTextEffect o w) es).
Proof.
  intros Hready. apply matches_run.
  - exact (construct_active o w Hready).
  - exact (construct_matches o w Hready).
Qed.

Lemma instance_always_matches_viewport_witness :
  matchesViewport
    (run (PixelatedTextEffect Sample.options Sample.host)
         [Resize 1024 768; AnimationFrame; Resize 640 480]).
Proof.
  exact (instance_always_matches_viewport Sample.options Sample.host
           [Resize 1024 768; AnimationFrame; Resize 640 480] sample_ready).
Defined.

(** The instance after [onWindowResize] is settled: running the
    handler again for a host with the same viewport and text measure
    changes nothing. *)
Lemma onWindowResize_settled w w' this :
  innerWidth w = innerWidth w' -> innerHeight w = innerHeight w' ->
  measureText w = measureText w' ->
  snd (onWindowResize (w', snd (onWindowResize (w, this))))
  = snd (onWindowResize (w, this)).
Proof.
  intros Hw Hh Hm. destruct w, w'. cbn in Hw, Hh, Hm. subst.
  destruct this. reflexivity.
Qed.

Lemma onWindowResize_host w this :
  innerWidth (fst (onWindowResize (w, this))) = innerWidth w
  /\ innerHeight (fst (onWindowResize (w, this))) = innerHeight w
  /\ measureText (fst (onWindowResize (w, this))) = measureText w.
Proof. destruct w. repeat split. Qed.

Lemma onWindowResize_pointer w this :
  let this' := snd (onWindowResize (w, this)) in
  mousePosition this' = mousePosition this
  /\ targetMousePosition this' = targetMousePosition this
  /\ prevPosition this' = prevPosition this
  /\ easeFactor this' = easeFactor this
  /\ u_mouse (shaderUniforms this') = u_mouse (shaderUniforms this)
  /\ u_prevMouse (shaderUniforms this') = u_prevMouse (shaderUniforms this).
Proof. destruct w, this. repeat split. Qed.

Lemma resize_state s width height :
  active s ->
  let s1 := step s (Resize width height) in
  snd (step s1 (Resize width height)) = snd s1
  /\ mousePosition (snd s1) = mousePosition (snd s)
  /\ targetMousePosition (snd s1) = targetMousePosition (snd s)
  /\ prevPosition (snd s1) = prevPosition (snd s)
  /\ easeFactor (snd s1) = easeFactor (snd s)
  /\ u_mouse (shaderUniforms (snd s1)) = u_mouse (shaderUniforms (snd s))
  /\ u_prevMouse (shaderUniforms (snd s1))
     = u_prevMouse (shaderUniforms (snd s)).
Proof.
  intros Ha. cbv zeta.
  pose proof (active_step s (Resize width height) Ha) as Ha1.
  rewrite (step_resize _ width height Ha1).
  rewrite (step_resize _ width height Ha).
  destruct s as [w this]. cbn [fst snd].
  set (w0 := set_viewport width height w).
  split; [| exact (onWindowResize_pointer w0 this)].
  destruct (onWindowResize_host w0 this) as (Hw & Hh & Hm).
  apply onWindowResize_settled.
  - reflexivity.
  - reflexivity.
  - transitivity (measureText (fst (onWindowResize (w0, this))));
      [symmetry; exact Hm | reflexivity].
Qed.

(** X13.  Resizing is idempotent on the instance and leaves the pointer
    alone: a second resize event for the same viewport size gives the
    same camera, renderer size and texture as the first, and a resize
    changes neither the positions, nor the smoothing factor, nor the
    mouse uniforms. *)
Theorem resize_is_idempotent
        (o : Options) (w : Host) (es : list Event) (width height : Z) :
  ready o w ->
  let s := run (PixelatedTextEffect o w) es in
  let s1 := step s (Resize width height) in
  snd (step s1 (Resize width height)) = snd s1
  /\ mousePosition (snd s1) = mousePosition (snd s)
  /\ targetMousePosition (snd s1) = targetMousePosition (snd s)
  /\ prevPosition (snd s1) = prevPosition (snd s)
  /\ easeFactor (snd s1) = easeFactor (snd s)
  /\ u_mouse (shaderUniforms (snd s1)) = u_mouse (shaderUniforms (snd s))
  /\ u_prevMouse (shaderUniforms (snd s1))
     = u_prevMouse (shaderUniforms (snd s)).
Proof.
  intros Hready.
  pose proof (active_run es _ (construct_active o w Hready)) as Ha.
  revert Ha. generalize (run (PixelatedTextEffect o w) es) as s.
  intros s Ha. exact (resize_state s width height Ha).
Qed.

Lemma resize_is_idempotent_witness :
  let s1 := step (run (PixelatedTextEffect Sample.options Sample.host)
                      [MouseMove (Sample.mouseAt 200 150)])
                 (Resize 1024 768) in
  snd (step s1 (Resize 1024 768)) = snd s1.
Proof.
  exact (proj1 (resize_is_idempotent Sample.options Sample.host
                  [MouseMove (Sample.mouseAt 200 150)] 1024 768
                  sample_ready)).
Defined.
End ViewportMore.

(** ** Teardown and the DOM helper *)

Section TeardownMore.
#[local] Open Scope R_scope.

Lemma destroy_keeps_identity s s' :
  destroy s = Some s' ->
  container (snd s') = container (snd s)
  /\ domElement (renderer (snd s')) = domElement (renderer (snd s)).
Proof.
  destruct s as [w this]. unfold destroy.
  destruct (removeChild _ _ _) as [d |]; [| discriminate].
  intros [= <-]. split; reflexivity.
Qed.

Lemma destroy_detached s :
  domElement (renderer (snd s))
  ∉ childNodes (elements (document (fst s)) (container (snd s))) ->
  destroy s = None.
Proof.
  destruct s as [w this]. cbn [fst snd]. intros Hout. unfold destroy.
  replace (document _) with (document w)
    by (destruct (animationFrame this); reflexivity).
  unfold removeChild. rewrite decide_False by exact Hout. reflexivity.
Qed.

Lemma released_step_state s e :
  released s ->
  snd (step s e) = snd s
  /\ document (fst (step s e)) = document (fst s).
Proof.
  intros [Hl Hf]. destruct s as [w this]. destruct w.
  cbn in Hl, Hf. subst.
  destruct e; cbn; split; reflexivity.
Qed.

Lemma step_elements s e n :
  active s -> (n < nextNode (document (fst s)))%nat ->
  elements (document (fst (step s e))) n = elements (document (fst s)) n
  /\ (n < nextNode (document (fst (step s e))))%nat.
Proof.
  intros Ha Hn. destruct e as [m | m | m | width height |].
  - rewrite step_move by exact Ha. split; [reflexivity | exact Hn].
  - rewrite step_enter by exact Ha. split; [reflexivity | exact Hn].
  - rewrite step_leave by exact Ha. split; [reflexivity | exact Hn].
  - rewrite step_resize by exact Ha. destruct s as [w this]. destruct w.
    cbn in *. rewrite decide_False by lia. split; [reflexivity | lia].
  - rewrite step_frame by exact Ha. destruct s as [w this]. destruct w.
    cbn in *. split; [reflexivity | exact Hn].
Qed.

Lemma run_elements es :
  forall s n, active s -> (n < nextNode (document (fst s)))%nat ->
  elements (document (fst (run s es))) n = elements (document (fst s)) n.
Proof.
  induction es as [| e es IH]; intros s n Ha Hn; [reflexivity |].
  rewrite run_cons.
  destruct (step_elements s e n Ha Hn) as [He Hn'].
  rewrite IH by (try apply active_step; assumption). exact He.
Qed.

Lemma run_identity es :
  forall s, active s ->
  container (snd (run s es)) = container (snd s)
  /\ domElement (renderer (snd (run s es))) = domElement (renderer (snd s)).
Proof.
  induction es as [| e es IH]; intros s Ha; [split; reflexivity |].
  rewrite run_cons.
  destruct (IH (step s e) (active_step _ _ Ha)) as [Hc Hd].
  rewrite Hc, Hd. clear IH Hc Hd.
  destruct e as [m | m | m | width height |].
  - rewrite step_move by exact Ha. split; reflexivity.
  - rewrite step_enter by exact Ha. split; reflexivity.
  - rewrite step_leave by exact Ha. split; reflexivity.
  - rewrite step_resize by exact Ha. destruct s as [w this]. destruct w.
    split; reflexivity.
  - rewrite step_frame by exact Ha. destruct s as [w this]. destruct w.
    split; reflexivity.
Qed.

Lemma destroy_elements s s' n :
  destroy s = Some s' ->
  elements (document (fst s')) n
  = if decide (n = container (snd s))
    then set_children
           (filter (fun m => m ≠ domElement (renderer (snd s)))
                   (childNodes (elements (document (fst s)) n)))
           (elements (document (fst s)) n)
    else elements (document (fst s)) n.
Proof.
  destruct s as [w this]. unfold destroy.
  replace (document (removeEventListener _ _)) with (document w)
    by (destruct (animationFrame this); reflexivity).
  unfold removeChild. case_decide; [| discriminate].
  intros [= <-]. cbn. reflexivity.
Qed.

Lemma helper_builds sel opts w el :
  querySelector (document w) sel = Some el ->
  (el < nextNode (document w))%nat ->
  let overlay := nextNode (document w) in
  let before := elements (document w) el in
  exists o1 w1,
    applyPixelatedTextTo sel opts w
    = (fst (PixelatedTextEffect o1 w1), Some (snd (PixelatedTextEffect o1 w1)))
    /\ opt_container o1 = default overlay (ov_container opts)
    /\ listeners w1 = listeners w
    /\ frameRequests w1 = frameRequests w
    /\ nextNode (document w1) = S overlay
    /\ elements (document w1) overlay
       = overlayStyle (classList_add "pixelated-overlay" blank)
    /\ childNodes (elements (document w1) el) = childNodes before ++ [overlay]
    /\ style (elements (document w1) el)
       = (if decide (computedPosition before = "static"%string)
          then <["position"%string := "relative"%string]> (style before)
          else style before)
    /\ classList (elements (document w1) el) = classList before
    /\ textContent (elements (document w1) el) = textContent before
    /\ sheetPosition (elements (document w1) el) = sheetPosition before.
Proof.
  intros Hq Hel overlay before. unfold applyPixelatedTextTo. rewrite Hq.
  change (createElement (document w))
    with (fst (createElement (document w)), overlay).
  cbv iota beta.
  set (d0 := update (update (fst (createElement (document w))) overlay _)
                    overlay _).
  set (d1 := if decide (computedPosition (elements d0 el) = "static"%string)
             then _ else _).
  set (o1 := Build_Options _ _ _ _ _).
  set (w1 := set_document (appendChild el overlay d1) w).
  exists o1, w1.
  assert (Hne : el ≠ overlay) by (subst overlay; lia).
  assert (H0 : elements d0 el = before).
  { subst d0. rewrite !elements_update, elements_created.
    fold overlay. rewrite !decide_False by exact Hne. reflexivity. }
  split; [destruct (PixelatedTextEffect o1 w1); reflexivity |].
  split; [reflexivity |]. split; [destruct w; reflexivity |].
  split; [destruct w; reflexivity |].
  split; [subst w1 d1; destruct w; cbn; case_decide; reflexivity |].
  assert (Hov : elements d1 overlay
                = overlayStyle (classList_add "pixelated-overlay" blank)).
  { subst d1 d0. case_decide; rewrite ?elements_update, ?elements_created;
      fold overlay; repeat case_decide; try lia; try done. }
  assert (Hel1 : elements d1 el
                 = if decide (computedPosition before = "static"%string)
                   then style_set "position" "relative" before
                   else before).
  { subst d1. rewrite H0.
    destruct (decide (computedPosition before = "static"%string));
      [| exact H0].
    rewrite elements_update, decide_True by reflexivity.
    rewrite H0. reflexivity. }
  change (document w1) with (appendChild el overlay d1).
  rewrite !elements_appendChild.
  rewrite (decide_False (P := overlay = el)) by congruence.
  rewrite (decide_True (P := el = el)) by reflexivity.
  rewrite Hov, Hel1.
  split; [reflexivity |].
  destruct (decide (computedPosition before = "static"%string));
    repeat split.
Qed.

Lemma released_run_state es :
  forall s, released s ->
  snd (run s es) = snd s
  /\ document (fst (run s es)) = document (fst s)
  /\ released (run s es).
Proof.
  induction es as [| e es IH]; intros s Hs; [repeat split; apply Hs |].
  rewrite run_cons.
  destruct (released_step s e Hs) as [Hs' _].
  destruct (released_step_state s e Hs) as [Hst Hd].
  destruct (IH (step s e) Hs') as (Hst' & Hd' & Hr').
  rewrite Hst', Hd'. repeat split; try assumption; apply Hr'.
Qed.

(** X14.  [destroy()] can be called once: on an instance that was
    already destroyed the canvas is no longer a child of the container,
    so [removeChild] throws and the second call does not return. *)
Theorem second_destroy_throws (o : Options) (w : Host) (es : list Event) :
  ready o w ->
  let s := run (PixelatedTextEffect o w) es in
  exists s', destroy s = Some s' /\ destroy s' = None.
Proof.
  intros Hready.
  pose proof (active_run es _ (construct_active o w Hready)) as Ha.
  revert Ha. generalize (run (PixelatedTextEffect o w) es) as s.
  intros s Ha. cbv zeta.
  destruct (destroy_active s Ha) as (s' & Hd & _ & _ & Hout & _).
  exists s'. split; [exact Hd |].
  destruct (destroy_keeps_identity s s' Hd) as [Hc Hr].
  apply destroy_detached. rewrite Hc, Hr. exact Hout.
Qed.

Lemma second_destroy_throws_witness :
  exists s',
    destroy (run (PixelatedTextEffect Sample.options Sample.host)
                 [AnimationFrame; Resize 1024 768]) = Some s'
    /\ destroy s' = None.
Proof.
  exact (second_destroy_throws Sample.options Sample.host
           [AnimationFrame; Resize 1024 768] sample_ready).
Defined.

(** X15.  A destroyed instance is inert: whatever pointer, resize and
    frame events follow, none of its fields changes, the document stays
    as [destroy] left it, and nothing is registered again. *)
Theorem destroyed_instance_is_inert
        (o : Options) (w : Host) (es es' : list Event) :
  ready o w ->
  let s := run (PixelatedTextEffect o w) es in
  exists s',
    destroy s = Some s'
    /\ snd (run s' es') = snd s'
    /\ document (fst (run s' es')) = document (fst s')
    /\ listeners (fst (run s' es')) = []
    /\ frameRequests (fst (run s' es')) = [].
Proof.
  intros Hready.
  pose proof (active_run es _ (construct_active o w Hready)) as Ha.
  revert Ha. generalize (run (PixelatedTextEffect o w) es) as s.
  intros s Ha. cbv zeta.
  destruct (destroy_active s Ha) as (s' & Hd & Hl & Hf & _).
  exists s'. split; [exact Hd |].
  destruct (released_run_state es' s' (conj Hl Hf)) as (Hs & Hdoc & Hr).
  split; [exact Hs |]. split; [exact Hdoc |]. exact Hr.
Qed.

Lemma destroyed_instance_is_inert_witness :
  exists s',
    destroy (run (PixelatedTextEffect Sample.options Sample.host)
                 [AnimationFrame]) = Some s'
    /\ snd (run s' [MouseMove (Sample.mouseAt 200 150); AnimationFrame;
                    Resize 1024 768]) = snd s'.
Proof.
  destruct (destroyed_instance_is_inert Sample.options Sample.host
              [AnimationFrame]
              [MouseMove (Sample.mouseAt 200 150); AnimationFrame;
               Resize 1024 768] sample_ready)
    as (s' & Hd & Hs & _).
  exists s'. split; [exact Hd | exact Hs].
Defined.

(** X16.  [destroy()] does not undo [applyPixelatedTextTo]: for an
    instance made by the helper without a [container] option, after any
    events and a [destroy()] the overlay is still the last child of the
    matched element, still classed, and now empty. *)
Theorem destroy_leaves_overlay_behind
        (sel : string) (opts : Overrides) (w : Host) (el : node)
        (es : list Event) :
  listeners w = [] -> frameRequests w = [] ->
  querySelector (document w) sel = Some el ->
  (el < nextNode (document w))%nat ->
  ov_container opts = None ->
  let overlay := nextNode (document w) in
  exists w1 e,
    applyPixelatedTextTo sel opts w = (w1, Some e)
    /\ exists s',
         destroy (run (w1, e) es) = Some s'
         /\ childNodes (elements (document (fst s')) el)
            = childNodes (elements (document w) el) ++ [overlay]
         /\ childNodes (elements (document (fst s')) overlay) = []
         /\ classList (elements (document (fst s')) overlay)
            = ["pixelated-overlay"%string].
Proof.
  intros Hl Hf Hq Hel Hnone overlay.
  destruct (helper_builds sel opts w el Hq Hel)
    as (o1 & w1 & Heq & Hc & Hl1 & Hf1 & Hn1 & Hov & Hch & _).
  fold overlay in Hc, Hn1, Hov, Hch.
  rewrite Hnone in Hc. change (default overlay None) with overlay in Hc.
  assert (Hready : ready o1 w1).
  { repeat split; [congruence | congruence | rewrite Hc, Hn1; lia]. }
  pose proof (construct_active o1 w1 Hready) as Ha0.
  destruct (construct_parts o1 w1) as (Hc0 & _ & Hd0 & Hr0).
  rewrite Hc in Hc0. rewrite Hc, Hn1 in Hd0. rewrite Hn1 in Hr0.
  exists (fst (PixelatedTextEffect o1 w1)), (snd (PixelatedTextEffect o1 w1)).
  split; [exact Heq |].
  rewrite <- surjective_pairing.
  revert Ha0 Hc0 Hd0 Hr0. generalize (PixelatedTextEffect o1 w1) as s0.
  intros s0 Ha0 Hc0 Hd0 Hr0.
  assert (Hne : el ≠ overlay) by (subst overlay; lia).
  assert (Hnext : nextNode (document (fst s0)) = S (S (S overlay))).
  { rewrite Hd0. cbn. rewrite Hn1. reflexivity. }
  assert (He0 : elements (document (fst s0)) el = elements (document w1) el).
  { rewrite Hd0, elements_appendChild, !elements_created.
    change (nextNode (fst (createElement (document w1))))
      with (S (nextNode (document w1))).
    rewrite Hn1. rewrite !decide_False by lia. reflexivity. }
  assert (Ho0 : elements (document (fst s0)) overlay
                = set_children [S (S overlay)]
                    (overlayStyle (classList_add "pixelated-overlay" blank))).
  { rewrite Hd0, elements_appendChild, !elements_created.
    change (nextNode (fst (createElement (document w1))))
      with (S (nextNode (document w1))).
    rewrite Hn1. rewrite decide_True by reflexivity.
    rewrite !decide_False by lia. rewrite Hov. reflexivity. }
  pose proof (active_run es s0 Ha0) as Ha.
  destruct (run_identity es s0 Ha0) as [Hcr Hdr].
  pose proof (run_elements es s0 el Ha0 ltac:(rewrite Hnext; lia)) as Her.
  pose proof (run_elements es s0 overlay Ha0 ltac:(rewrite Hnext; lia)) as Hor.
  destruct (destroy_active _ Ha) as (s' & Hd & _).
  exists s'. split; [exact Hd |].
  rewrite !(destroy_elements _ _ _ Hd), Hcr, Hdr, Hc0, Hr0, Her, Hor.
  rewrite decide_False by exact Hne. rewrite decide_True by reflexivity.
  rewrite He0, Ho0, Hch. split; [reflexivity |].
  cbn [childNodes set_children classList].
  rewrite filter_cons, decide_False, filter_nil by auto.
  split; reflexivity.
Qed.

Lemma destroy_leaves_overlay_behind_witness :
  exists w1 e,
    applyPixelatedTextTo "h1" no_overrides Sample.host = (w1, Some e)
    /\ exists s',
         destroy (run (w1, e) [AnimationFrame; Resize 1024 768]) = Some s'
         /\ childNodes (elements (document (fst s')) 0%nat) = [2%nat]
         /\ childNodes (elements (document (fst s')) 2%nat) = [].
Proof.
  destruct (destroy_leaves_overlay_behind "h1" no_overrides Sample.host
              0%nat [AnimationFrame; Resize 1024 768])
    as (w1 & e & Heq & s' & Hd & Hel & Hov & _);
    [reflexivity | reflexivity | reflexivity | cbn; lia | reflexivity |].
  exists w1, e. split; [exact Heq |].
  exists s'. split; [exact Hd |]. split; [exact Hel | exact Hov].
Defined.


End TeardownMore.

(** ** From the pointer state to the picture *)

Section RestMore.
Import GLSL Shader.
#[local] Open Scope R_scope.
Context {color : Type}.
Variable texture2D : vec2 -> color.

Lemma equal_uniforms_sample_plainly (mouse uv : vec2) :
  fragmentShader texture2D mouse mouse uv = texture2D uv.
Proof.
  unfold fragmentShader, uvOffset, mouseDirection, vscale, smul, vneg, vsub.
  destruct uv as [ux uy]. cbn [x y]. f_equal. f_equal; ring.
Qed.

Lemma construct_at_rest o w :
  ready o w -> atRest (snd (PixelatedTextEffect o w)).
Proof.
  intros (Hl & Hf & Hc).
  unfold PixelatedTextEffect, init.
  destruct w, o; cbn in Hl, Hf, Hc; subst.
  cbn -[addEventListeners].
  rewrite addEventListeners_fresh by reflexivity.
  unfold atRest. cbn. repeat split; f_equal; lra.
Qed.

Lemma rest_step s e :
  active s -> bringsPointer e = false ->
  atRest (snd s) -> atRest (snd (step s e)).
Proof.
  intros Ha He (Ht & Hp & Hu).
  destruct e as [m | m | m | width height |]; try discriminate He.
  - rewrite step_leave by exact Ha. unfold atRest. cbn.
    repeat split; congruence.
  - rewrite step_resize by exact Ha. destruct s as [w this].
    pose proof (onWindowResize_pointer (set_viewport width height w) this)
      as Hkeep.
    cbv zeta in Hkeep. destruct Hkeep as (Hm' & Ht' & Hp' & _ & Hu' & Hv').
    cbn [fst snd] in *. unfold atRest. rewrite Hm', Ht', Hp', Hu', Hv'.
    repeat split; assumption.
  - rewrite step_frame by exact Ha. destruct s as [w this].
    cbn [snd] in *. unfold atRest. cbn. rewrite <- Ht, <- Hp.
    destruct (mousePosition this) as [px py]. cbn.
    repeat split; f_equal; ring.
Qed.

Lemma rest_run es :
  forall s, active s ->
  forallb (fun e => negb (bringsPointer e)) es = true ->
  atRest (snd s) -> atRest (snd (run s es)).
Proof.
  induction es as [| e es IH]; intros s Ha Hes Hr; [exact Hr |].
  cbn in Hes. apply andb_prop in Hes as [He Hes].
  apply negb_true_iff in He.
  rewrite run_cons. apply IH; [apply active_step, Ha | exact Hes |].
  apply rest_step; assumption.
Qed.

(** X18.  Until a move or an enter event arrives, the picture is the
    plain text: through any frames, resizes and leaves the two mouse
    uniforms stay equal, so the fragment shader samples the texture at
    the unmodified coordinate everywhere. *)
Theorem idle_instance_draws_plain_text
        (o : Options) (w : Host) (es : list Event) (uv : vec2) :
  ready o w ->
  forallb (fun e => negb (bringsPointer e)) es = true ->
  let this := snd (run (PixelatedTextEffect o w) es) in
  u_mouse (shaderUniforms this) = u_prevMouse (shaderUniforms this)
  /\ fragmentShader texture2D (u_mouse (shaderUniforms this))
                    (u_prevMouse (shaderUniforms this)) uv
     = texture2D uv.
Proof.
  intros Hready Hes.
  pose proof (rest_run es _ (construct_active o w Hready) Hes
                (construct_at_rest o w Hready)) as (_ & _ & Hu).
  revert Hu. generalize (snd (run (PixelatedTextEffect o w) es)) as this.
  intros this Hu. cbv zeta. split; [exact Hu |].
  rewrite Hu. apply equal_uniforms_sample_plainly.
Qed.
End RestMore.

Lemma idle_instance_draws_plain_text_witness :
  let this :=
    snd (run (PixelatedTextEffect Sample.options Sample.host)
             [AnimationFrame; Resize 1024 768; AnimationFrame]) in
  u_mouse (shaderUniforms this) = u_prevMouse (shaderUniforms this).
Proof.
  exact (proj1 (idle_instance_draws_plain_text (fun uv : vec2 => uv)
                  Sample.options Sample.host
                  [AnimationFrame; Resize 1024 768; AnimationFrame]
                  (Vec2 0 0) sample_ready eq_refl)).
Defined.
